(** * tests/fix.py: the retry fix applied to tests\test_ky_http.rs

    The script reads one Rust test file as text, applies five literal
    [str.replace] calls to it and writes the result back.  This file embeds
    the script: Python strings as lists of code points, [str.replace] as the
    left-to-right scan for occurrences that do not overlap, the file system
    as a finite map from paths to nodes holding bytes, and [Path.exists],
    [Path.read_text], [Path.write_text] and [print] as operations of a small
    program type that is run on a world and records what it did. *)

From Stdlib Require Import NArith String Ascii.
From stdpp Require Import gmap strings list fin_maps.

Local Open Scope N_scope.
Local Open Scope list_scope.

(** ** Python strings *)

Module PyStr.

(** A [str] is a sequence of Unicode code points. *)
Definition str : Type := list N.

(** A literal of the source, all of whose characters are ASCII. *)
Definition lit (s : string) : str :=
  map N_of_ascii (list_ascii_of_string s).

(** [s.startswith(p)]. *)
Fixpoint startswith (s p : str) : bool :=
  match p, s with
  | [], _ => true
  | _ :: _, [] => false
  | a :: p', b :: s' => (a =? b) && startswith s' p'
  end.

(** [p in s]: some suffix of [s] starts with [p]. *)
Fixpoint contains (s p : str) : bool :=
  startswith s p ||
  match s with
  | [] => false
  | _ :: s' => contains s' p
  end.

(** The scan of [str.replace] for a non-empty [old]: walk [s] from the left;
    where [old] starts, emit [new] and step over the whole occurrence (the
    [skip] counter holds how many of its characters are still to be stepped
    over), elsewhere copy the character. *)
Fixpoint replace_from (old new : str) (skip : nat) (s : str) : str :=
  match s with
  | [] => []
  | c :: s' =>
      match skip with
      | S k => replace_from old new k s'
      | O =>
          if startswith s old
          then new ++ replace_from old new (pred (length old)) s'
          else c :: replace_from old new 0 s'
      end
  end.

(** [s.replace(old, new)].  With an empty [old] Python puts [new] before
    every character and at the end. *)
Definition replace (s old new : str) : str :=
  match old with
  | [] => new ++ flat_map (fun c => c :: new) s
  | _ :: _ => replace_from old new 0 s
  end.

(** The non-empty suffixes of a string, longest first. *)
Fixpoint suffixes (s : str) : list str :=
  match s with
  | [] => []
  | _ :: s' => s :: suffixes s'
  end.

(** One of the two strings is a prefix of the other. *)
Definition comparable (a b : str) : bool :=
  startswith a b || startswith b a.

(** No occurrence of [old] can start inside a region holding [p]. *)
Definition starts_clear (old p : str) : bool :=
  forallb (fun p' => negb (comparable old p')) (suffixes p).

(** No occurrence of [old] that starts before a region holding [p] can reach
    into it. *)
Definition reach_clear (old p : str) : bool :=
  forallb (fun o' => negb (comparable o' p)) (suffixes (tail old)).

(** No occurrence of [old] can touch a region holding [p]. *)
Definition apart (old p : str) : bool :=
  starts_clear old p && reach_clear old p.

(** [out] is [s] with some occurrences of targets of [rules] replaced by
    their replacements and every other character kept. *)
Inductive patched (rules : list (str * str)) : str -> str -> Prop :=
| patched_nil : patched rules [] []
| patched_keep c s out :
    patched rules s out -> patched rules (c :: s) (c :: out)
| patched_swap old new s out :
    In (old, new) rules -> patched rules s out ->
    patched rules (old ++ s) (new ++ out).

End PyStr.

Import PyStr.

(** ** Text files: codecs and newline translation *)

Module PyIO.

(** File data: a sequence of bytes, each a number below 256. *)
Definition bytes : Type := list N.

Inductive encoding : Type := UTF8 | Latin1.

(** The code points UTF-8 can carry: everything up to U+10FFFF except the
    surrogates U+D800..U+DFFF. *)
Definition is_scalar (c : N) : bool :=
  (c <? 0xD800) || ((0xDFFF <? c) && (c <? 0x110000)).

Definition utf8_encode_char (c : N) : bytes :=
  if c <? 0x80 then [c]
  else if c <? 0x800 then
    [N.lor 0xC0 (N.shiftr c 6); N.lor 0x80 (N.land c 0x3F)]
  else if c <? 0x10000 then
    [N.lor 0xE0 (N.shiftr c 12);
     N.lor 0x80 (N.land (N.shiftr c 6) 0x3F);
     N.lor 0x80 (N.land c 0x3F)]
  else
    [N.lor 0xF0 (N.shiftr c 18);
     N.lor 0x80 (N.land (N.shiftr c 12) 0x3F);
     N.lor 0x80 (N.land (N.shiftr c 6) 0x3F);
     N.lor 0x80 (N.land c 0x3F)].

(** A continuation byte, 10xxxxxx. *)
Definition is_cont (b : N) : bool := (0x80 <=? b) && (b <? 0xC0).

Definition low6 (b : N) : N := N.land b 0x3F.

(** Accept a decoded code point when it is not an overlong form (it needs
    the length it was written in) and is a scalar value. *)
Definition accept (least c : N) (rest : option str) : option str :=
  if (least <=? c) && is_scalar c then cons c <$> rest else None.

(** Strict UTF-8 decoding ([errors="strict"], the default). *)
Fixpoint utf8_decode (bs : bytes) : option str :=
  match bs with
  | [] => Some []
  | b0 :: r =>
      if b0 <? 0x80 then cons b0 <$> utf8_decode r
      else if b0 <? 0xC0 then None
      else if b0 <? 0xE0 then
        match r with
        | b1 :: r1 =>
            if is_cont b1
            then accept 0x80
                   (N.lor (N.shiftl (N.land b0 0x1F) 6) (low6 b1))
                   (utf8_decode r1)
            else None
        | _ => None
        end
      else if b0 <? 0xF0 then
        match r with
        | b1 :: b2 :: r2 =>
            if is_cont b1 && is_cont b2
            then accept 0x800
                   (N.lor (N.shiftl (N.land b0 0x0F) 12)
                      (N.lor (N.shiftl (low6 b1) 6) (low6 b2)))
                   (utf8_decode r2)
            else None
        | _ => None
        end
      else if b0 <? 0xF8 then
        match r with
        | b1 :: b2 :: b3 :: r3 =>
            if is_cont b1 && is_cont b2 && is_cont b3
            then accept 0x10000
                   (N.lor (N.shiftl (N.land b0 0x07) 18)
                      (N.lor (N.shiftl (low6 b1) 12)
                         (N.lor (N.shiftl (low6 b2) 6) (low6 b3))))
                   (utf8_decode r3)
            else None
        | _ => None
        end
      else None
  end.

Definition decode (enc : encoding) (bs : bytes) : option str :=
  match enc with
  | UTF8 => utf8_decode bs
  | Latin1 => if forallb (fun b => b <? 0x100) bs then Some bs else None
  end.

Definition encode (enc : encoding) (s : str) : option bytes :=
  match enc with
  | UTF8 =>
      if forallb is_scalar s then Some (flat_map utf8_encode_char s) else None
  | Latin1 => if forallb (fun c => c <? 0x100) s then Some s else None
  end.

Definition LF : N := 10.
Definition CR : N := 13.

(** Reading in text mode with [newline=None]: "\r\n" and "\r" both arrive
    as "\n". *)
Fixpoint universal_newlines (s : str) : str :=
  match s with
  | [] => []
  | c :: r =>
      if c =? CR then
        LF :: match r with
              | d :: r' =>
                  if d =? LF then universal_newlines r'
                  else universal_newlines r
              | [] => []
              end
      else c :: universal_newlines r
  end.

(** Writing in text mode with [newline=None]: every "\n" leaves as the
    line separator of the platform. *)
Definition translate_newlines (linesep s : str) : str :=
  flat_map (fun c => if c =? LF then linesep else [c]) s.

(** ** The world the script runs in *)

Inductive platform : Type := Posix | Windows.

(** [os.linesep]. *)
Definition linesep (os : platform) : str :=
  match os with
  | Posix => [LF]
  | Windows => [CR; LF]
  end.

Inductive node : Type :=
| File (data : bytes)
| Dir.

(** [stdout_encoding] is the encoding of the stream [print] writes to;
    [stdout] holds what has been printed, a line at a time. *)
Record world : Type := World {
  os : platform;
  stdout_encoding : encoding;
  files : gmap string node;
  stdout : list str
}.

Inductive exn : Type :=
| FileNotFoundError
| IsADirectoryError
| PermissionError
| UnicodeDecodeError
| UnicodeEncodeError.

(** Opening a directory as a file. *)
Definition open_directory (o : platform) : exn :=
  match o with
  | Posix => IsADirectoryError
  | Windows => PermissionError
  end.

(** What a run did to the outside, in order. *)
Inductive event : Type :=
| EvExists (path : string) (found : bool)
| EvRead (path : string) (enc : encoding)
| EvWrite (path : string) (enc : encoding) (data : str)
| EvPrint (msg : str).

(** Programs over the four operations the script uses. *)
Inductive prog (A : Type) : Type :=
| Ret (a : A)
| PathExists (path : string) (k : bool -> prog A)
| ReadText (path : string) (enc : encoding) (k : str -> prog A)
| WriteText (path : string) (data : str) (enc : encoding) (k : prog A)
| Print (msg : str) (k : prog A).

Arguments Ret {A} a.
Arguments PathExists {A} path k.
Arguments ReadText {A} path enc k.
Arguments WriteText {A} path data enc k.
Arguments Print {A} msg k.

Fixpoint bind {A B : Type} (m : prog A) (f : A -> prog B) : prog B :=
  match m with
  | Ret a => f a
  | PathExists p k => PathExists p (fun b => bind (k b) f)
  | ReadText p enc k => ReadText p enc (fun s => bind (k s) f)
  | WriteText p data enc k => WriteText p data enc (bind k f)
  | Print msg k => Print msg (bind k f)
  end.

Definition path_exists (p : string) : prog bool := PathExists p Ret.
Definition read_text (p : string) (enc : encoding) : prog str :=
  ReadText p enc Ret.
Definition write_text (p : string) (data : str) (enc : encoding) : prog unit :=
  WriteText p data enc (Ret tt).
Definition print (msg : str) : prog unit := Print msg (Ret tt).

Record outcome (A : Type) : Type := Outcome {
  result : exn + A;
  final : world;
  trace : list event
}.

Arguments Outcome {A} result final trace.
Arguments result {A} o.
Arguments final {A} o.
Arguments trace {A} o.

Definition set_files (w : world) (fs : gmap string node) : world :=
  World (os w) (stdout_encoding w) fs (stdout w).

Definition add_stdout (w : world) (line : str) : world :=
  World (os w) (stdout_encoding w) (files w) (stdout w ++ [line]).

Definition logged {A : Type} (e : event) (o : outcome A) : outcome A :=
  Outcome (result o) (final o) (e :: trace o).

(** Running a program.  [exists] is true of files and directories alike.
    [read_text] opens for reading, decodes and translates newlines.
    [write_text] opens for writing, which creates or truncates the file,
    and then encodes: when the encoder refuses the text the file stays
    empty.  [print] fails when the stream cannot encode the message. *)
Fixpoint run {A : Type} (m : prog A) (w : world) : outcome A :=
  match m with
  | Ret a => Outcome (inr a) w []
  | PathExists p k =>
      let found := bool_decide (is_Some (files w !! p)) in
      logged (EvExists p found) (run (k found) w)
  | ReadText p enc k =>
      logged (EvRead p enc)
        match files w !! p with
        | None => Outcome (inl FileNotFoundError) w []
        | Some Dir => Outcome (inl (open_directory (os w))) w []
        | Some (File data) =>
            match decode enc data with
            | None => Outcome (inl UnicodeDecodeError) w []
            | Some s => run (k (universal_newlines s)) w
            end
        end
  | WriteText p data enc k =>
      logged (EvWrite p enc data)
        match files w !! p with
        | Some Dir => Outcome (inl (open_directory (os w))) w []
        | _ =>
            match encode enc (translate_newlines (linesep (os w)) data) with
            | None =>
                Outcome (inl UnicodeEncodeError)
                  (set_files w (<[p := File []]> (files w))) []
            | Some bs => run k (set_files w (<[p := File bs]> (files w)))
            end
        end
  | Print msg k =>
      logged (EvPrint msg)
        match encode (stdout_encoding w) msg with
        | None => Outcome (inl UnicodeEncodeError) w []
        | Some _ => run k (add_stdout w msg)
        end
  end.

End PyIO.

Import PyIO.

#[global] Instance prog_ret : MRet prog := @Ret.
#[global] Instance prog_bind : MBind prog := fun A B f m => bind m f.

(** ** The script *)

Definition retry_7 : str := lit "opts.retry = 7;".
Definition retry_6 : str := lit "opts.retry = 6;".
Definition retry_5 : str := lit "opts.retry = 5;".
Definition retry_10 : str := lit "opts.retry = 10;".
Definition let__concurrent : str := lit "let _concurrent =".
Definition let_concurrent : str := lit "let concurrent =".
Definition let__max_seen : str := lit "let _max_seen =".
Definition let_max_seen : str := lit "let max_seen =".

(** "Increase retry to 10": lines 11 to 13. *)
Definition increase_retry (content : str) : str :=
  let new_content := replace content retry_7 retry_10 in
  let new_content := replace new_content retry_6 retry_10 in
  let new_content := replace new_content retry_5 retry_10 in
  new_content.

(** "Fix variable names for the compiler": lines 16 and 17. *)
Definition fix_variable_names (new_content : str) : str :=
  let new_content := replace new_content let__concurrent let_concurrent in
  let new_content := replace new_content let__max_seen let_max_seen in
  new_content.

(** The text handed to [write_text] for the text [read_text] returned. *)
Definition new_content_of (content : str) : str :=
  fix_variable_names (increase_retry content).

Definition test_path : string := "tests\test_ky_http.rs".

Definition success_message : str :=
  0x2705 ::
  lit " Module logic bypass: Retry increased to 10 to ensure success window is hit.".

Definition finalize_retry_fix : prog unit :=
  path_exists test_path ≫= fun found : bool =>
  if found then
    content ← read_text test_path UTF8;
    write_text test_path (new_content_of content) UTF8;;
    print success_message
  else mret tt.

(** ** What the specification speaks of *)

(** The five targets with their replacements, in the order of the source. *)
Definition retry_rules : list (str * str) :=
  [(retry_7, retry_10); (retry_6, retry_10); (retry_5, retry_10)].

Definition rename_rules : list (str * str) :=
  [(let__concurrent, let_concurrent); (let__max_seen, let_max_seen)].

Definition rules : list (str * str) := retry_rules ++ rename_rules.

(** A sequence of replacements, each applied to the result of the one
    before it. *)
Definition replace_in_order (rs : list (str * str)) (s : str) : str :=
  fold_left (fun acc r => replace acc (fst r) (snd r)) rs s.

(** None of the targets of [rs] occurs in [s]. *)
Definition free_of (rs : list (str * str)) (s : str) : bool :=
  forallb (fun r => negb (contains s (fst r))) rs.

(** [f] turns an occurrence of [old], wherever it stands, into [new], and
    treats what is before and after it as it would on their own. *)
Definition maps_every_occurrence (f : str -> str) (old new : str) : Prop :=
  forall x y, f (x ++ old ++ y) = f x ++ new ++ f y.

(** The bytes [write_text] leaves in a file for a text, on a platform. *)
Definition on_disk (o : platform) (text : str) : bytes :=
  flat_map utf8_encode_char (translate_newlines (linesep o) text).

(** The events of a run name only [path], and read and write with [enc]. *)
Definition event_within (path : string) (enc : encoding) (e : event) : Prop :=
  match e with
  | EvExists p _ => p = path
  | EvRead p c => p = path /\ c = enc
  | EvWrite p c _ => p = path /\ c = enc
  | EvPrint _ => True
  end.

Definition is_read (e : event) : bool :=
  match e with EvRead _ _ => true | _ => false end.

Definition is_write (e : event) : bool :=
  match e with EvWrite _ _ _ => true | _ => false end.

(** The sentence of the specification on files, read on the bytes of the
    file: when the bytes of the target file hold a target, the run leaves a
    file whose bytes are the old ones with occurrences of targets replaced
    and nothing else changed, and that holds the replacement of every target
    that was there. *)
Definition otherwise_byte_identical (w : world) : Prop :=
  forall data,
    files w !! test_path = Some (File data) ->
    free_of rules data = false ->
    exists data',
      files (final (run finalize_retry_fix w)) !! test_path = Some (File data') /\
      patched rules data data' /\
      forall old new,
        In (old, new) rules -> contains data old = true ->
        contains data' new = true.

(** The sentence of the specification on a file that holds no target, read
    on the file as it is: when the target file exists and its bytes hold
    none of the targets, the run writes the file, and the file is then what
    it was. *)
Definition unmatched_file_rewritten_identical (w : world) : Prop :=
  forall data,
    files w !! test_path = Some (File data) ->
    free_of rules data = true ->
    existsb is_write (trace (run finalize_retry_fix w)) = true /\
    files (final (run finalize_retry_fix w)) !! test_path = Some (File data).

(** A world with the target file alone in it. *)
Definition world_with (o : platform) (data : bytes) : world :=
  World o UTF8 {[test_path := File data]} [].

(** How the run ends once the file is written: [print] succeeds on a UTF-8
    stream and fails on a Latin-1 one, which has no check mark. *)
Definition printed (w : world) : outcome unit :=
  match stdout_encoding w with
  | UTF8 => Outcome (inr tt) (add_stdout w success_message) []
  | Latin1 => Outcome (inl UnicodeEncodeError) w []
  end.

(** ["\n".join(lines)]. *)
Fixpoint join_lines (lines : list str) : str :=
  match lines with
  | [] => []
  | [l] => l
  | l :: rest => l ++ [LF] ++ join_lines rest
  end.

(** The characters that are their own UTF-8 encoding. *)
Definition is_ascii (c : N) : bool := c <? 0x80.

(** The characters newline translation looks at. *)
Definition is_line_break (c : N) : bool := (c =? CR) || (c =? LF).

(** No carriage return among the bytes. *)
Definition no_cr (bs : bytes) : bool := forallb (fun b => negb (b =? CR)) bs.

(** Every line ending among the bytes is "\r\n": no carriage return without
    a line feed after it, no line feed without a carriage return before. *)
Fixpoint crlf_lines (bs : bytes) : bool :=
  match bs with
  | [] => true
  | c :: r =>
      if c =? CR then
        match r with
        | d :: r' => (d =? LF) && crlf_lines r'
        | [] => false
        end
      else negb (c =? LF) && crlf_lines r
  end.

Local Close Scope N_scope.

(** ** Facts about prefixes, occurrences and [replace] *)

Section StrFacts.

Implicit Types s p x y z old new : str.

Lemma length_ind (P : str -> Prop) :
  (forall s, (forall t, length t < length s -> P t) -> P s) -> forall s, P s.
Proof.
  intros step s. apply step.
  induction s as [|c s IH]; simpl; intros t Hlt; [lia|].
  apply step. intros u Hu. apply IH. lia.
Qed.

Lemma startswith_nil s : startswith s [] = true.
Proof. destruct s; reflexivity. Qed.

Lemma startswith_app p y : startswith (p ++ y) p = true.
Proof.
  induction p as [|a p IH]; simpl; [apply startswith_nil|].
  rewrite N.eqb_refl. exact IH.
Qed.

Lemma startswith_split s p :
  startswith s p = true -> s = p ++ drop (length p) s.
Proof.
  revert s. induction p as [|a p IH]; intros [|b s]; simpl; try done.
  intros H. apply andb_true_iff in H as [Hab Hp].
  apply N.eqb_eq in Hab. subst b. f_equal. apply IH, Hp.
Qed.

Lemma startswith_app_l s p y :
  startswith s p = true -> startswith (s ++ y) p = true.
Proof.
  intros H. rewrite (startswith_split _ _ H), <- app_assoc.
  apply startswith_app.
Qed.

(** A prefix of [x ++ z] that is not a prefix of [x] runs through the whole
    of [x] and goes on into [z]. *)
Lemma startswith_across x z p :
  startswith (x ++ z) p = true -> startswith x p = false ->
  exists o, o <> [] /\ p = x ++ o /\ startswith z o = true.
Proof.
  revert p. induction x as [|c x IH]; intros p Hxz Hx.
  - exists p. split; [|auto]. intros ->. by rewrite startswith_nil in Hx.
  - destruct p as [|a p]; [done|]. simpl in *.
    apply andb_true_iff in Hxz as [Hac Hxz]. rewrite Hac in Hx. simpl in Hx.
    apply N.eqb_eq in Hac. subst c.
    destruct (IH p Hxz Hx) as (o & Ho & -> & Hz). by exists o.
Qed.

Lemma startswith_comparable z y p :
  startswith (z ++ y) p = true -> comparable p z = true.
Proof.
  unfold comparable. revert p. induction z as [|c z IH]; intros p H.
  - by rewrite startswith_nil.
  - destruct p as [|a p]; [apply orb_true_r|]. simpl in *.
    apply andb_true_iff in H as [Hac H]. apply IH in H.
    rewrite Hac. rewrite N.eqb_sym, Hac. exact H.
Qed.

Lemma suffixes_app_in x o : o <> [] -> In o (suffixes (x ++ o)).
Proof.
  intros Ho. induction x as [|c x IH]; simpl.
  - destruct o; [done|]. by left.
  - by right.
Qed.

(** The reading of [reach_clear]: whether [old] starts at the head of a
    non-empty [x] is not changed by a [p] put behind [x]. *)
Lemma reach_clear_startswith old p x y :
  reach_clear old p = true -> x <> [] ->
  startswith (x ++ p ++ y) old = startswith x old.
Proof.
  intros Hclear Hx. destruct (startswith x old) eqn:Hhead.
  - by apply startswith_app_l.
  - destruct (startswith (x ++ p ++ y) old) eqn:Hall; [|done].
    destruct (startswith_across _ _ _ Hall Hhead) as (o & Ho & -> & Hz).
    apply startswith_comparable in Hz.
    destruct x as [|c x]; [done|]. simpl in Hclear.
    unfold reach_clear in Hclear. simpl in Hclear.
    rewrite forallb_forall in Hclear.
    specialize (Hclear o (suffixes_app_in x o Ho)).
    by rewrite Hz in Hclear.
Qed.

(** The reading of [starts_clear], one position at a time. *)
Lemma starts_clear_cons old c p :
  starts_clear old (c :: p) = true ->
  (forall y, startswith (c :: p ++ y) old = false) /\
  starts_clear old p = true.
Proof.
  unfold starts_clear. simpl. intros H.
  apply andb_true_iff in H as [Hhead Hrest]. split; [|done].
  intros y. destruct (startswith (c :: p ++ y) old) eqn:E; [|done].
  apply (startswith_comparable (c :: p) y) in E.
  by rewrite E in Hhead.
Qed.

(** *** Occurrences *)

Lemma contains_nil p : p <> [] -> contains [] p = false.
Proof. by destruct p. Qed.

Lemma contains_empty s : contains s [] = true.
Proof. destruct s; reflexivity. Qed.

Lemma contains_cons c s p :
  contains (c :: s) p = startswith (c :: s) p || contains s p.
Proof. reflexivity. Qed.

Lemma contains_head s p : startswith s p = true -> contains s p = true.
Proof. intros H. destruct s; cbn [contains]; by rewrite H. Qed.

Lemma contains_intro x p y : contains (x ++ p ++ y) p = true.
Proof.
  induction x as [|c x IH].
  - exact (contains_head _ _ (startswith_app p y)).
  - rewrite <- app_comm_cons, contains_cons, IH. apply orb_true_r.
Qed.

Lemma contains_split s p :
  contains s p = true -> exists x y, s = x ++ p ++ y.
Proof.
  induction s as [|c s IH]; intros H.
  - simpl in H. rewrite orb_false_r in H.
    exists [], []. destruct p; [done|discriminate].
  - rewrite contains_cons in H. apply orb_true_iff in H as [H|H].
    + exists [], (drop (length p) (c :: s)). by apply startswith_split.
    + destruct (IH H) as (x & y & ->). by exists (c :: x), y.
Qed.

Lemma contains_inside a b c p :
  contains (a ++ b ++ c) p = false -> contains b p = false.
Proof.
  intros H. destruct (contains b p) eqn:E; [|done].
  destruct (contains_split _ _ E) as (x & y & ->).
  rewrite <- H. symmetry.
  replace (a ++ (x ++ p ++ y) ++ c) with ((a ++ x) ++ p ++ (y ++ c))
    by (by rewrite <- !app_assoc).
  apply contains_intro.
Qed.

Lemma contains_left a b p : contains (a ++ b) p = false -> contains a p = false.
Proof. intros H. apply (contains_inside [] a b). exact H. Qed.

Lemma contains_right a b p : contains (a ++ b) p = false -> contains b p = false.
Proof.
  intros H. apply (contains_inside a b []). by rewrite app_nil_r.
Qed.

(** An occurrence of [old] in [x ++ p ++ y], with [p] apart from [old], lies
    in [x] or in [y]. *)
Lemma contains_apart old p x y :
  old <> [] -> apart old p = true ->
  contains (x ++ p ++ y) old = contains x old || contains y old.
Proof.
  intros Hold Hap. apply andb_true_iff in Hap as [Hstarts Hreach].
  induction x as [|c x IH].
  - rewrite contains_nil by done. simpl.
    clear Hreach. induction p as [|c p IH]; [done|].
    apply starts_clear_cons in Hstarts as [Hhead Hstarts].
    rewrite <- app_comm_cons, contains_cons, Hhead. simpl. by apply IH.
  - rewrite <- app_comm_cons, !contains_cons, IH, app_comm_cons.
    rewrite (reach_clear_startswith old p (c :: x) y) by done.
    by rewrite orb_assoc.
Qed.

(** *** The equations of the scan *)

Lemma replace_from_skip old new o y :
  replace_from old new (length o) (o ++ y) = replace_from old new 0 y.
Proof.
  induction o as [|a o IH]; simpl; [|exact IH].
  destruct y; reflexivity.
Qed.

Lemma replace_nil old new : old <> [] -> replace [] old new = [].
Proof. by destruct old. Qed.

Lemma replace_miss c s old new :
  startswith (c :: s) old = false ->
  replace (c :: s) old new = c :: replace s old new.
Proof.
  destruct old as [|a o]; [by rewrite startswith_nil|].
  intros H. unfold replace. cbn [replace_from]. by rewrite H.
Qed.

Lemma replace_hit old new y :
  old <> [] -> replace (old ++ y) old new = new ++ replace y old new.
Proof.
  destruct old as [|a o]; [done|]. intros _. unfold replace.
  rewrite <- app_comm_cons. cbn [replace_from].
  rewrite (app_comm_cons o y a), startswith_app. cbn [length Nat.pred].
  by rewrite replace_from_skip.
Qed.

(** Every string is empty, or starts with a character at which [old] does
    not start, or starts with [old]: the three cases of the scan. *)
Lemma scan_ind old (Hold : old <> []) (P : str -> Prop) :
  P [] ->
  (forall c s, startswith (c :: s) old = false -> P s -> P (c :: s)) ->
  (forall y, P y -> P (old ++ y)) ->
  forall s, P s.
Proof.
  intros Hnil Hmiss Hhit s.
  induction s as [s IH] using length_ind.
  destruct s as [|c s]; [done|].
  destruct (startswith (c :: s) old) eqn:E.
  - rewrite (startswith_split _ _ E). apply Hhit, IH.
    rewrite length_drop. destruct old; [done|]. simpl. lia.
  - apply Hmiss; [done|]. apply IH. simpl. lia.
Qed.

Lemma replace_id s old new :
  old <> [] -> contains s old = false -> replace s old new = s.
Proof.
  intros Hold. induction s as [|c s IH]; intros H.
  - by apply replace_nil.
  - rewrite contains_cons in H. apply orb_false_iff in H as [Hhead Hrest].
    rewrite replace_miss by done. by rewrite IH.
Qed.

Lemma replace_split old new p x y :
  old <> [] -> reach_clear old p = true ->
  replace (x ++ p ++ y) old new = replace x old new ++ replace (p ++ y) old new.
Proof.
  intros Hold Hreach.
  induction x as [|c x Hmiss IH|x IH] using (scan_ind old Hold).
  - by rewrite replace_nil.
  - rewrite <- app_comm_cons, !replace_miss, IH; [done|done|].
    rewrite app_comm_cons.
    by rewrite (reach_clear_startswith old p (c :: x) y).
  - rewrite <- app_assoc, !replace_hit, IH by done. by rewrite app_assoc.
Qed.

Lemma replace_inert old new p y :
  starts_clear old p = true ->
  replace (p ++ y) old new = p ++ replace y old new.
Proof.
  induction p as [|c p IH]; intros H; [done|].
  apply starts_clear_cons in H as [Hhead H].
  rewrite <- !app_comm_cons, replace_miss by done. by rewrite IH.
Qed.

(** [replace] leaves a region apart from [old] as it is... *)
Lemma replace_keeps old new p x y :
  old <> [] -> apart old p = true ->
  replace (x ++ p ++ y) old new = replace x old new ++ p ++ replace y old new.
Proof.
  intros Hold Hap. apply andb_true_iff in Hap as [Hstarts Hreach].
  by rewrite replace_split, replace_inert.
Qed.

(** ... and replaces an occurrence of [old] wherever it stands, when [old]
    cannot overlap itself. *)
Lemma replace_swaps old new x y :
  old <> [] -> reach_clear old old = true ->
  replace (x ++ old ++ y) old new = replace x old new ++ new ++ replace y old new.
Proof. intros Hold Hreach. by rewrite replace_split, replace_hit. Qed.

(** The leftmost occurrence is the first one replaced. *)
Lemma first_hit s old new :
  old <> [] -> contains s old = true ->
  exists x y, s = x ++ old ++ y /\ contains x old = false /\
              replace s old new = x ++ new ++ replace y old new.
Proof.
  intros Hold. induction s as [|c s IH]; intros H.
  - by rewrite contains_nil in H.
  - destruct (startswith (c :: s) old) eqn:E.
    + exists [], (drop (length old) (c :: s)).
      rewrite (startswith_split _ _ E) at 1 3.
      split; [done|]. split; [by apply contains_nil|]. by apply replace_hit.
    + rewrite contains_cons, E in H. simpl in H.
      destruct (IH H) as (x & y & Hs & Hx & Hr).
      exists (c :: x), y. split; [by rewrite Hs|]. split.
      * rewrite contains_cons, Hx, orb_false_r.
        destruct (startswith (c :: x) old) eqn:E'; [|done].
        apply (startswith_app_l _ _ (old ++ y)) in E'.
        rewrite <- app_comm_cons, <- Hs in E'. congruence.
      * rewrite replace_miss by done. by rewrite Hr.
Qed.

(** After the replacement no occurrence of [old] is left, when [old] cannot
    touch [new]. *)
Lemma replace_clears s old new :
  old <> [] -> apart old new = true ->
  contains (replace s old new) old = false.
Proof.
  intros Hold Hap. induction s as [s IH] using length_ind.
  destruct (contains s old) eqn:E.
  - destruct (first_hit s old new Hold E) as (x & y & Hs & Hx & ->).
    rewrite contains_apart, Hx by done. simpl. apply IH.
    rewrite Hs, !length_app. destruct old; [done|]. simpl. lia.
  - by rewrite replace_id.
Qed.

(** A replacement does not bring in [p], when [p] cannot touch [new]. *)
Lemma replace_keeps_free s old new p :
  old <> [] -> apart p new = true ->
  contains s p = false -> contains (replace s old new) p = false.
Proof.
  intros Hold Hap. induction s as [s IH] using length_ind. intros Hfree.
  assert (p <> []) as Hp by (intros ->; by rewrite contains_empty in Hfree).
  destruct (contains s old) eqn:E.
  - destruct (first_hit s old new Hold E) as (x & y & Hs & Hx & ->).
    rewrite Hs in Hfree. rewrite contains_apart by done.
    rewrite (contains_left _ _ _ Hfree). simpl. apply IH.
    + rewrite Hs, !length_app. destruct old; [done|]. simpl. lia.
    + apply contains_right in Hfree. by apply contains_right in Hfree.
  - by rewrite replace_id.
Qed.

(** *** The relation [patched] *)

Lemma patched_refl rs s : patched rs s s.
Proof. induction s; by constructor. Qed.

Lemma patched_app rs a a' b b' :
  patched rs a a' -> patched rs b b' -> patched rs (a ++ b) (a' ++ b').
Proof.
  intros Ha Hb. induction Ha; simpl; [done| |].
  - by constructor.
  - rewrite <- !app_assoc. by constructor.
Qed.

End StrFacts.

(** ** The five replacements *)

(** The side conditions of the lemmas above, on the strings of the script:
    they are closed and are settled by evaluation. *)
Ltac closed_side :=
  match goal with
  | |- _ <> [] => discriminate
  | |- _ = true => vm_compute; reflexivity
  | |- _ = false => vm_compute; reflexivity
  end.

(** Takes one [replace] off a goal [contains (replace ...) old = false]. *)
Ltac absent_step :=
  first
    [ apply replace_clears; closed_side
    | apply replace_keeps_free; [closed_side | closed_side | ] ].

Ltac absent := repeat absent_step.

Section Content.

Implicit Types s x y content : str.

Example replace_abc :
  replace (lit "abcabc") (lit "bc") (lit "X") = lit "aXaX".
Proof. reflexivity. Qed.

Example replace_does_not_overlap :
  replace (lit "aaaaa") (lit "aa") (lit "b") = lit "bba".
Proof. reflexivity. Qed.

Example replace_empty_old : replace (lit "abc") [] (lit "-") = lit "-a-b-c-".
Proof. reflexivity. Qed.

Example new_content_of_sample :
  new_content_of (lit "let _max_seen = 0; opts.retry = 6; // opts.retry = 4;")
  = lit "let max_seen = 0; opts.retry = 10; // opts.retry = 4;".
Proof. reflexivity. Qed.

Lemma new_content_of_in_order content :
  new_content_of content = replace_in_order rules content.
Proof. reflexivity. Qed.

Lemma increase_retry_swaps old :
  In old [retry_7; retry_6; retry_5] ->
  maps_every_occurrence increase_retry old retry_10.
Proof.
  intros Hin x y. unfold increase_retry.
  simpl in Hin. destruct Hin as [<-|[<-|[<-|[]]]].
  - rewrite replace_swaps by closed_side.
    by rewrite !replace_keeps by closed_side.
  - rewrite replace_keeps by closed_side.
    rewrite replace_swaps by closed_side.
    by rewrite replace_keeps by closed_side.
  - rewrite !replace_keeps by closed_side.
    by rewrite replace_swaps by closed_side.
Qed.

Lemma increase_retry_keeps p :
  forallb (fun r => apart (fst r) p) retry_rules = true ->
  forall x y, increase_retry (x ++ p ++ y) = increase_retry x ++ p ++ increase_retry y.
Proof.
  intros H x y. simpl in H.
  repeat (apply andb_true_iff in H as [? H]).
  unfold increase_retry. by rewrite !replace_keeps by (done || closed_side).
Qed.

Lemma fix_variable_names_swaps old new :
  In (old, new) rename_rules ->
  maps_every_occurrence fix_variable_names old new.
Proof.
  intros Hin x y. unfold fix_variable_names.
  simpl in Hin. destruct Hin as [[= <- <-]|[[= <- <-]|[]]].
  - rewrite replace_swaps by closed_side.
    by rewrite replace_keeps by closed_side.
  - rewrite replace_keeps by closed_side.
    by rewrite replace_swaps by closed_side.
Qed.

Lemma fix_variable_names_keeps p :
  forallb (fun r => apart (fst r) p) rename_rules = true ->
  forall x y,
    fix_variable_names (x ++ p ++ y)
    = fix_variable_names x ++ p ++ fix_variable_names y.
Proof.
  intros H x y. simpl in H.
  repeat (apply andb_true_iff in H as [? H]).
  unfold fix_variable_names.
  by rewrite !replace_keeps by (done || closed_side).
Qed.

Lemma new_content_of_swaps old new :
  In (old, new) rules -> maps_every_occurrence new_content_of old new.
Proof.
  intros Hin x y. unfold new_content_of.
  apply in_app_or in Hin as [Hin|Hin].
  - assert (new = retry_10 /\ In old [retry_7; retry_6; retry_5]) as [-> Ho].
    { simpl in Hin. destruct Hin as [[= <- <-]|[[= <- <-]|[[= <- <-]|[]]]];
        simpl; auto. }
    rewrite (increase_retry_swaps old Ho).
    apply fix_variable_names_keeps. closed_side.
  - rewrite (increase_retry_keeps old).
    + by apply fix_variable_names_swaps.
    + simpl in Hin. destruct Hin as [[= <- <-]|[[= <- <-]|[]]]; closed_side.
Qed.

Lemma free_of_spec rs s :
  free_of rs s = true <-> forall old new, In (old, new) rs -> contains s old = false.
Proof.
  unfold free_of. rewrite forallb_forall. split.
  - intros H old new Hin. specialize (H _ Hin). simpl in H.
    by apply negb_true_iff.
  - intros H [old new] Hin. simpl. apply negb_true_iff. by eapply H.
Qed.

Lemma free_of_app rs1 rs2 s :
  free_of (rs1 ++ rs2) s = free_of rs1 s && free_of rs2 s.
Proof. apply forallb_app. Qed.

Lemma increase_retry_id s : free_of retry_rules s = true -> increase_retry s = s.
Proof.
  intros H. unfold free_of, retry_rules in H. cbn [forallb fst] in H.
  repeat (apply andb_true_iff in H as [?%negb_true_iff H]).
  unfold increase_retry. cbv zeta.
  rewrite (replace_id s retry_7) by (done || closed_side).
  rewrite (replace_id s retry_6) by (done || closed_side).
  by rewrite (replace_id s retry_5) by (done || closed_side).
Qed.

Lemma fix_variable_names_id s :
  free_of rename_rules s = true -> fix_variable_names s = s.
Proof.
  intros H. unfold free_of, rename_rules in H. cbn [forallb fst] in H.
  repeat (apply andb_true_iff in H as [?%negb_true_iff H]).
  unfold fix_variable_names. cbv zeta.
  rewrite (replace_id s let__concurrent) by (done || closed_side).
  by rewrite (replace_id s let__max_seen) by (done || closed_side).
Qed.

Lemma new_content_of_id s : free_of rules s = true -> new_content_of s = s.
Proof.
  unfold rules. rewrite free_of_app. intros H.
  apply andb_true_iff in H as [Hretry Hrename]. unfold new_content_of.
  by rewrite increase_retry_id, fix_variable_names_id.
Qed.

Lemma new_content_of_free s : free_of rules (new_content_of s) = true.
Proof.
  unfold free_of, rules, retry_rules, rename_rules. cbn [forallb fst app].
  unfold new_content_of, fix_variable_names, increase_retry. cbv zeta.
  repeat (apply andb_true_iff; split); [..|done];
    apply negb_true_iff; absent.
Qed.

(** Some target occurs in [s]: the leftmost rule whose target does. *)
Lemma not_free_of rs s :
  free_of rs s = false ->
  exists old new, In (old, new) rs /\ contains s old = true.
Proof.
  induction rs as [|[old new] rs IH]; [done|]. unfold free_of. simpl.
  destruct (contains s old) eqn:E; simpl.
  - intros _. exists old, new. auto.
  - intros H. destruct (IH H) as (o & n & Hin & Ho). exists o, n. auto.
Qed.

(** A function that is the identity where no target occurs and turns every
    occurrence of a target into its replacement changes nothing else. *)
Lemma patched_of_swaps rs (f : str -> str) :
  (forall s, free_of rs s = true -> f s = s) ->
  (forall old new, In (old, new) rs ->
     old <> [] /\ maps_every_occurrence f old new) ->
  forall s, patched rs s (f s).
Proof.
  intros Hid Hswap s. induction s as [s IH] using length_ind.
  destruct (free_of rs s) eqn:E.
  - rewrite Hid by done. apply patched_refl.
  - destruct (not_free_of _ _ E) as (old & new & Hin & Ho).
    destruct (contains_split _ _ Ho) as (x & y & ->).
    destruct (Hswap old new Hin) as [Hne ->].
    apply patched_app; [|apply (patched_swap rs old new); [done|]].
    + apply IH. rewrite !length_app. destruct old; [done|]. simpl. lia.
    + apply IH. rewrite !length_app. destruct old; [done|]. simpl. lia.
Qed.

Lemma rules_nonempty old new : In (old, new) rules -> old <> [].
Proof.
  unfold rules. simpl. intros Hin.
  repeat (destruct Hin as [[= <- <-]|Hin]; [discriminate|]). done.
Qed.

Lemma new_content_of_patched s : patched rules s (new_content_of s).
Proof.
  apply patched_of_swaps.
  - apply new_content_of_id.
  - intros old new Hin. split; [by apply rules_nonempty with new|].
    by apply new_content_of_swaps.
Qed.

Lemma fix_variable_names_patched s :
  patched rename_rules s (fix_variable_names s).
Proof.
  apply patched_of_swaps.
  - apply fix_variable_names_id.
  - intros old new Hin. split; [|by apply fix_variable_names_swaps].
    apply rules_nonempty with new. unfold rules. apply in_or_app. by right.
Qed.

Lemma new_content_of_contains s old new :
  In (old, new) rules -> contains s old = true ->
  contains (new_content_of s) new = true.
Proof.
  intros Hin Ho. destruct (contains_split _ _ Ho) as (x & y & ->).
  rewrite (new_content_of_swaps old new Hin). apply contains_intro.
Qed.

End Content.

(** ** Reading and writing text *)

Section Codec.

Implicit Types s content : str.
Implicit Types bs data : bytes.

Lemma fmap_cons_some (c : N) (o : option str) s :
  cons c <$> o = Some s -> exists s', o = Some s' /\ s = c :: s'.
Proof. destruct o as [s'|]; [|done]. intros [= <-]. by exists s'. Qed.

Lemma accept_some least c rest s :
  accept least c rest = Some s ->
  is_scalar c = true /\ exists s', rest = Some s' /\ s = c :: s'.
Proof.
  unfold accept. destruct (least <=? c)%N; [|done]. simpl.
  destruct (is_scalar c); [|done]. intros H. split; [done|].
  by apply fmap_cons_some.
Qed.

(** Strict decoding yields scalar values only. *)
Lemma utf8_decode_scalar bs s :
  utf8_decode bs = Some s -> forallb is_scalar s = true.
Proof.
  revert s. pattern bs. apply length_ind. clear bs. intros bs IH s.
  destruct bs as [|b0 r]; [by intros [= <-]|]. cbn [utf8_decode].
  destruct (b0 <? 128)%N eqn:E1.
  { intros (s' & Hr & ->)%fmap_cons_some. cbn [forallb].
    rewrite (IH r) with (s := s'); [|simpl; lia|done].
    unfold is_scalar. apply N.ltb_lt in E1.
    replace (b0 <? 55296)%N with true by (symmetry; apply N.ltb_lt; lia).
    done. }
  destruct (b0 <? 192)%N; [done|].
  destruct (b0 <? 224)%N.
  { destruct r as [|b1 r1]; [done|]. destruct (is_cont b1); [|done].
    intros (Hc & s' & Hr & ->)%accept_some. cbn [forallb]. rewrite Hc.
    apply (IH r1); [simpl; lia|done]. }
  destruct (b0 <? 240)%N.
  { destruct r as [|b1 [|b2 r2]]; [done|done|].
    destruct (is_cont b1 && is_cont b2); [|done].
    intros (Hc & s' & Hr & ->)%accept_some. cbn [forallb]. rewrite Hc.
    apply (IH r2); [simpl; lia|done]. }
  destruct (b0 <? 248)%N; [|done].
  destruct r as [|b1 [|b2 [|b3 r3]]]; [done|done|done|].
  destruct (is_cont b1 && is_cont b2 && is_cont b3); [|done].
  intros (Hc & s' & Hr & ->)%accept_some. cbn [forallb]. rewrite Hc.
  apply (IH r3); [simpl; lia|done].
Qed.

Lemma universal_newlines_scalar s :
  forallb is_scalar s = true -> forallb is_scalar (universal_newlines s) = true.
Proof.
  induction s as [s IH] using length_ind.
  destruct s as [|c r]; [done|]. cbn [universal_newlines forallb].
  intros [Hc Hr]%andb_true_iff.
  destruct (c =? CR)%N.
  - cbn [forallb]. replace (is_scalar LF) with true by reflexivity. simpl.
    destruct r as [|d r']; [done|]. destruct (d =? LF)%N.
    + apply IH; [simpl; lia|]. cbn [forallb] in Hr.
      by apply andb_true_iff in Hr as [_ Hr].
    + apply IH; [simpl; lia|done].
  - cbn [forallb]. rewrite Hc. apply IH; [simpl; lia|done].
Qed.

Lemma replace_forallb (P : N -> bool) s old new :
  old <> [] -> forallb P new = true -> forallb P s = true ->
  forallb P (replace s old new) = true.
Proof.
  intros Hold Hnew.
  induction s as [|c s Hmiss IH|y IH] using (scan_ind old Hold).
  - by rewrite replace_nil.
  - rewrite replace_miss by done. cbn [forallb].
    intros [-> Hs]%andb_true_iff. by apply IH.
  - rewrite replace_hit by done. rewrite !forallb_app.
    intros [_ Hy]%andb_true_iff. rewrite Hnew. by apply IH.
Qed.

Lemma new_content_of_scalar s :
  forallb is_scalar s = true -> forallb is_scalar (new_content_of s) = true.
Proof.
  intros H. unfold new_content_of, fix_variable_names, increase_retry.
  cbv zeta. by repeat (apply replace_forallb; [closed_side|closed_side|]).
Qed.

Lemma translate_newlines_scalar o s :
  forallb is_scalar s = true ->
  forallb is_scalar (translate_newlines (linesep o) s) = true.
Proof.
  unfold translate_newlines. induction s as [|c s IH]; [done|].
  cbn [forallb flat_map]. intros [Hc Hs]%andb_true_iff.
  rewrite forallb_app, IH, andb_true_r by done.
  destruct (c =? LF)%N; [by destruct o|]. cbn [forallb]. by rewrite Hc.
Qed.

(** The text of a decodable file, once patched, can be encoded again. *)
Lemma encode_new_content o data s :
  utf8_decode data = Some s ->
  encode UTF8 (translate_newlines (linesep o)
                 (new_content_of (universal_newlines s)))
  = Some (on_disk o (new_content_of (universal_newlines s))).
Proof.
  intros Hs. unfold encode.
  by rewrite translate_newlines_scalar
    by (apply new_content_of_scalar, universal_newlines_scalar;
        by apply utf8_decode_scalar with data).
Qed.

End Codec.

(** ** Runs of the script *)

Section Runs.

Implicit Types w : world.

Lemma finalize_retry_fix_unfold :
  finalize_retry_fix =
  PathExists test_path (fun found : bool =>
    if found then
      ReadText test_path UTF8 (fun content =>
        WriteText test_path (new_content_of content) UTF8
          (Print success_message (Ret tt)))
    else Ret tt).
Proof. reflexivity. Qed.

Lemma run_absent w :
  files w !! test_path = None ->
  run finalize_retry_fix w = Outcome (inr tt) w [EvExists test_path false].
Proof.
  intros H. rewrite finalize_retry_fix_unfold. cbn [run].
  rewrite H. rewrite bool_decide_eq_false_2 by (by intros [? ?]).
  reflexivity.
Qed.

Lemma run_on_dir w :
  files w !! test_path = Some Dir ->
  run finalize_retry_fix w =
  Outcome (inl (open_directory (os w))) w
    [EvExists test_path true; EvRead test_path UTF8].
Proof.
  intros H. rewrite finalize_retry_fix_unfold. cbn [run].
  rewrite H. rewrite bool_decide_eq_true_2 by eauto. cbn [run]. by rewrite H.
Qed.

Lemma run_undecodable w data :
  files w !! test_path = Some (File data) ->
  utf8_decode data = None ->
  run finalize_retry_fix w =
  Outcome (inl UnicodeDecodeError) w
    [EvExists test_path true; EvRead test_path UTF8].
Proof.
  intros H Hd. rewrite finalize_retry_fix_unfold. cbn [run].
  rewrite H. rewrite bool_decide_eq_true_2 by eauto. cbn [run].
  rewrite H. cbn [decode]. by rewrite Hd.
Qed.

(** The run on a file that decodes: the file is written, then the message
    is printed. *)
Lemma run_on_file w data s :
  files w !! test_path = Some (File data) ->
  utf8_decode data = Some s ->
  let content := universal_newlines s in
  let written :=
    set_files w
      (<[test_path := File (on_disk (os w) (new_content_of content))]>
         (files w)) in
  run finalize_retry_fix w =
  Outcome (result (printed written)) (final (printed written))
    [EvExists test_path true; EvRead test_path UTF8;
     EvWrite test_path UTF8 (new_content_of content);
     EvPrint success_message].
Proof.
  intros H Hd content written. rewrite finalize_retry_fix_unfold. cbn [run].
  rewrite H. rewrite bool_decide_eq_true_2 by eauto. cbn [run].
  rewrite H. cbn [decode]. rewrite Hd. cbn [run].
  rewrite (encode_new_content (os w) data s Hd).
  subst content written. unfold printed. cbn [set_files stdout_encoding].
  destruct (stdout_encoding w).
  - by replace (encode UTF8 success_message)
      with (Some (flat_map utf8_encode_char success_message))
      by (vm_compute; reflexivity).
  - by replace (encode Latin1 success_message) with (@None bytes)
      by (vm_compute; reflexivity).
Qed.

Lemma printed_files w : files (final (printed w)) = files w.
Proof. unfold printed. by destruct (stdout_encoding w). Qed.

Lemma printed_os w : os (final (printed w)) = os w.
Proof. unfold printed. by destruct (stdout_encoding w). Qed.

Lemma printed_utf8 w :
  stdout_encoding w = UTF8 -> result (printed w) = inr tt.
Proof. unfold printed. by intros ->. Qed.

(** Every world is in one of three cases: no target, an exception while
    reading, or a file that decodes. *)
Lemma run_cases w :
  (files w !! test_path = None /\
   run finalize_retry_fix w = Outcome (inr tt) w [EvExists test_path false]) \/
  (exists e,
     run finalize_retry_fix w =
     Outcome (inl e) w [EvExists test_path true; EvRead test_path UTF8]) \/
  (exists data s written,
     files w !! test_path = Some (File data) /\ utf8_decode data = Some s /\
     written =
       set_files w
         (<[test_path := File (on_disk (os w)
                                 (new_content_of (universal_newlines s)))]>
            (files w)) /\
     run finalize_retry_fix w =
     Outcome (result (printed written)) (final (printed written))
       [EvExists test_path true; EvRead test_path UTF8;
        EvWrite test_path UTF8 (new_content_of (universal_newlines s));
        EvPrint success_message]).
Proof.
  destruct (files w !! test_path) as [[data|]|] eqn:H.
  - destruct (utf8_decode data) as [s|] eqn:Hd.
    + right; right. eexists data, s, _. split; [done|]. split; [done|].
      split; [reflexivity|]. by apply run_on_file with data.
    + right; left. exists UnicodeDecodeError. by apply run_undecodable with data.
  - right; left. exists (open_directory (os w)). by apply run_on_dir.
  - left. split; [done|]. by apply run_absent.
Qed.

End Runs.

(** ** The properties of the specification *)

Section Claims.

Implicit Types s x y content : str.
Implicit Types w : world.

(** C1, as the specification words it, fails: a file holding a carriage
    return before "opts.retry = 7;" is not left byte-identical outside the
    replaced occurrence, because the carriage return is read as a line feed
    and written back as one. *)
Lemma C1_file_bytes_not_identical :
  ~ otherwise_byte_identical (world_with Posix (CR :: retry_7)).
Proof.
  intros H. destruct (H (CR :: retry_7)) as (data' & Hfile & Hpatched & _).
  { vm_compute. reflexivity. }
  { vm_compute. reflexivity. }
  vm_compute in Hfile. injection Hfile as <-.
  inversion Hpatched as [| |old new rest out Hin Hrest Hsplit Hout].
  unfold rules in Hin. simpl in Hin.
  repeat (destruct Hin as [[= <- <-]|Hin]; [discriminate Hsplit|]). done.
Qed.

(** Without line endings in the way the sentence holds of a file. *)
Example file_bytes_identical_without_newlines :
  otherwise_byte_identical (world_with Posix retry_7).
Proof.
  intros data Hfile _. vm_compute in Hfile. injection Hfile as <-.
  exists retry_10. split; [vm_compute; reflexivity|]. split.
  - apply (patched_swap rules retry_7 retry_10 [] []); [|constructor].
    unfold rules. simpl. tauto.
  - intros old new Hin Hold. unfold rules in Hin. simpl in Hin.
    repeat (destruct Hin as [[= <- <-]|Hin];
            [first [vm_compute; reflexivity | discriminate Hold]|]).
    done.
Qed.

Example file_bytes_not_identical_on_windows :
  ~ otherwise_byte_identical (world_with Windows (LF :: retry_7)).
Proof.
  intros H. destruct (H (LF :: retry_7)) as (data' & Hfile & Hpatched & _).
  { vm_compute. reflexivity. }
  { vm_compute. reflexivity. }
  vm_compute in Hfile. injection Hfile as <-.
  inversion Hpatched as [| |old new rest out Hin Hrest Hsplit Hout].
  unfold rules in Hin. simpl in Hin.
  repeat (destruct Hin as [[= <- <-]|Hin]; [discriminate Hsplit|]). done.
Qed.

(** C1, amended: when the target file decodes as UTF-8 and its text, with
    line endings read as "\n", holds at least one target, the text handed to
    [write_text] is the text read with occurrences of targets replaced and
    every other character kept, it holds the replacement of every target
    that occurred, and the file then holds the UTF-8 encoding of that text
    with "\n" written as the line separator. *)
Theorem C1_written_text_patched w data s :
  files w !! test_path = Some (File data) ->
  utf8_decode data = Some s ->
  free_of rules (universal_newlines s) = false ->
  let content := universal_newlines s in
  let o := run finalize_retry_fix w in
  In (EvWrite test_path UTF8 (new_content_of content)) (trace o) /\
  files (final o) !! test_path
    = Some (File (on_disk (os w) (new_content_of content))) /\
  patched rules content (new_content_of content) /\
  (forall old new,
     In (old, new) rules -> contains content old = true ->
     contains (new_content_of content) new = true).
Proof.
  intros Hfile Hdecode _ content o. subst o.
  rewrite (run_on_file w data s Hfile Hdecode). cbn [trace final].
  rewrite printed_files. cbn [set_files files].
  split; [simpl; tauto|].
  split; [apply lookup_insert_eq|].
  split; [apply new_content_of_patched|].
  intros old new. apply new_content_of_contains.
Qed.

Lemma C1_written_text_patched_witness :
  In (EvWrite test_path UTF8 (LF :: retry_10))
     (trace (run finalize_retry_fix (world_with Posix (CR :: retry_7)))) /\
  files (final (run finalize_retry_fix (world_with Posix (CR :: retry_7))))
    !! test_path = Some (File (LF :: retry_10)) /\
  patched rules (LF :: retry_7) (LF :: retry_10) /\
  (forall old new,
     In (old, new) rules -> contains (LF :: retry_7) old = true ->
     contains (LF :: retry_10) new = true).
Proof.
  apply (C1_written_text_patched
           (world_with Posix (CR :: retry_7)) (CR :: retry_7) (CR :: retry_7)).
  - vm_compute. reflexivity.
  - vm_compute. reflexivity.
  - vm_compute. reflexivity.
Defined.

(** C2: when the target file does not exist, the run returns without an
    exception, its only step is the existence test, so it neither reads nor
    writes, and the world it leaves is the world it found. *)
Theorem C2_absent_file_skipped w :
  files w !! test_path = None ->
  let o := run finalize_retry_fix w in
  result o = inr tt /\
  final o = w /\
  trace o = [EvExists test_path false] /\
  existsb is_read (trace o) = false /\
  existsb is_write (trace o) = false.
Proof. intros H o. subst o. by rewrite (run_absent w H). Qed.

Lemma C2_absent_file_skipped_witness :
  result (run finalize_retry_fix (World Windows UTF8 ∅ [])) = inr tt /\
  final (run finalize_retry_fix (World Windows UTF8 ∅ []))
    = World Windows UTF8 ∅ [] /\
  trace (run finalize_retry_fix (World Windows UTF8 ∅ []))
    = [EvExists test_path false] /\
  existsb is_read (trace (run finalize_retry_fix (World Windows UTF8 ∅ [])))
    = false /\
  existsb is_write (trace (run finalize_retry_fix (World Windows UTF8 ∅ [])))
    = false.
Proof.
  apply (C2_absent_file_skipped (World Windows UTF8 ∅ [])).
  vm_compute. reflexivity.
Defined.

(** C3: the retry adjustment turns every occurrence of "opts.retry = 7;",
    of "opts.retry = 6;" and of "opts.retry = 5;" into "opts.retry = 10;",
    in its own result and in the text that is written, and leaves none of
    the three behind. *)
Theorem C3_retry_adjustment :
  retry_7 = lit "opts.retry = 7;" /\
  retry_6 = lit "opts.retry = 6;" /\
  retry_5 = lit "opts.retry = 5;" /\
  retry_10 = lit "opts.retry = 10;" /\
  Forall (fun old =>
            maps_every_occurrence increase_retry old retry_10 /\
            maps_every_occurrence new_content_of old retry_10)
         [retry_7; retry_6; retry_5] /\
  (forall s, free_of retry_rules (increase_retry s) = true).
Proof.
  do 4 (split; [reflexivity|]). split.
  - repeat constructor;
      (apply increase_retry_swaps || apply new_content_of_swaps);
      unfold rules; simpl; tauto.
  - intros s. unfold free_of, retry_rules. cbn [forallb fst].
    unfold increase_retry. cbv zeta.
    repeat (apply andb_true_iff; split); [..|done];
      apply negb_true_iff; absent.
Qed.

Example rename_leaves_other_variables :
  fix_variable_names (lit "let _other = 1; let _concurrent = 2; let _max = 3;")
  = lit "let _other = 1; let concurrent = 2; let _max = 3;".
Proof. reflexivity. Qed.

(** C4: the renaming turns every occurrence of "let _concurrent =" into
    "let concurrent =" and every occurrence of "let _max_seen =" into
    "let max_seen =", in its own result and in the text that is written;
    its result is its argument with occurrences of these two targets
    replaced and every other character kept. *)
Theorem C4_variable_renaming :
  let__concurrent = lit "let _concurrent =" /\
  let_concurrent = lit "let concurrent =" /\
  let__max_seen = lit "let _max_seen =" /\
  let_max_seen = lit "let max_seen =" /\
  Forall (fun r =>
            maps_every_occurrence fix_variable_names (fst r) (snd r) /\
            maps_every_occurrence new_content_of (fst r) (snd r))
         [(let__concurrent, let_concurrent); (let__max_seen, let_max_seen)] /\
  (forall s, patched rename_rules s (fix_variable_names s)).
Proof.
  do 4 (split; [reflexivity|]). split.
  - repeat constructor; cbn [fst snd];
      (apply fix_variable_names_swaps || apply new_content_of_swaps);
      unfold rules; simpl; tauto.
  - apply fix_variable_names_patched.
Qed.

(** C5: when the target file exists (and decodes), the text written is the
    text read put through the five replacements in the order 7, 6, 5,
    concurrent, max_seen, each applied to the result of the one before; and
    each of the five, on any text, turns every occurrence of its target into
    its replacement and leaves no occurrence of the target. *)
Theorem C5_five_replacements_in_order w data s :
  files w !! test_path = Some (File data) ->
  utf8_decode data = Some s ->
  let five :=
    [(lit "opts.retry = 7;", lit "opts.retry = 10;");
     (lit "opts.retry = 6;", lit "opts.retry = 10;");
     (lit "opts.retry = 5;", lit "opts.retry = 10;");
     (lit "let _concurrent =", lit "let concurrent =");
     (lit "let _max_seen =", lit "let max_seen =")] in
  let content := universal_newlines s in
  trace (run finalize_retry_fix w) =
    [EvExists test_path true; EvRead test_path UTF8;
     EvWrite test_path UTF8 (replace_in_order five content);
     EvPrint success_message] /\
  replace_in_order five content =
    replace (replace (replace (replace (replace content
      (lit "opts.retry = 7;") (lit "opts.retry = 10;"))
      (lit "opts.retry = 6;") (lit "opts.retry = 10;"))
      (lit "opts.retry = 5;") (lit "opts.retry = 10;"))
      (lit "let _concurrent =") (lit "let concurrent ="))
      (lit "let _max_seen =") (lit "let max_seen =") /\
  Forall (fun r =>
            maps_every_occurrence (fun t => replace t (fst r) (snd r))
              (fst r) (snd r) /\
            forall t, contains (replace t (fst r) (snd r)) (fst r) = false)
         five.
Proof.
  intros Hfile Hdecode five content.
  rewrite (run_on_file w data s Hfile Hdecode). cbn [trace].
  split; [reflexivity|]. split; [reflexivity|].
  repeat constructor; cbn [fst snd].
  all: try (intros x y; apply replace_swaps; closed_side).
  all: intros t; apply replace_clears; closed_side.
Qed.

Lemma C5_five_replacements_in_order_witness :
  trace (run finalize_retry_fix
           (world_with Windows (lit "opts.retry = 6; let _max_seen = 0;"))) =
    [EvExists test_path true; EvRead test_path UTF8;
     EvWrite test_path UTF8 (lit "opts.retry = 10; let max_seen = 0;");
     EvPrint success_message].
Proof.
  exact (proj1 (C5_five_replacements_in_order
                  (world_with Windows (lit "opts.retry = 6; let _max_seen = 0;"))
                  (lit "opts.retry = 6; let _max_seen = 0;")
                  (lit "opts.retry = 6; let _max_seen = 0;")
                  eq_refl eq_refl)).
Defined.

(** C6: whatever the world, a run leaves every file other than the target
    as it was (none is created, changed or removed), does not change the
    platform, and every step of it that names a path names the target path,
    [read_text] and [write_text] both with UTF-8; a write is preceded by a
    read of the same path. *)
Theorem C6_only_target_path_touched w :
  let o := run finalize_retry_fix w in
  test_path = "tests\test_ky_http.rs"%string /\
  delete test_path (files (final o)) = delete test_path (files w) /\
  os (final o) = os w /\
  Forall (event_within test_path UTF8) (trace o) /\
  (existsb is_write (trace o) = true ->
   take 2 (trace o) = [EvExists test_path true; EvRead test_path UTF8]).
Proof.
  intros o. subst o. split; [reflexivity|].
  destruct (run_cases w) as [[_ ->]|[[e ->]|(data & s & wr & _ & _ & -> & ->)]];
    cbn [final trace].
  - split; [done|]. split; [done|]. split; [|discriminate].
    repeat constructor.
  - split; [done|]. split; [done|]. split; [|done].
    repeat constructor.
  - rewrite printed_files, printed_os. cbn [set_files files os].
    split; [apply delete_insert_eq|]. split; [done|]. split; [|done].
    repeat constructor.
Qed.

(** C7: putting a text through the five replacements a second time changes
    nothing; and no replacement holds any of the five targets. *)
Theorem C7_idempotent s :
  new_content_of (new_content_of s) = new_content_of s /\
  forallb (fun r => free_of rules (snd r)) rules = true.
Proof.
  split; [|vm_compute; reflexivity].
  apply new_content_of_id, new_content_of_free.
Qed.

(** C8: the text that is written holds none of the five targets; and at
    every stage, after the first [k] replacements none of their [k] targets
    occurs, so a later replacement does not bring an earlier target back. *)
Theorem C8_no_target_left s :
  free_of rules (new_content_of s) = true /\
  forall k, free_of (take k rules) (replace_in_order (take k rules) s) = true.
Proof.
  split; [apply new_content_of_free|]. intros k.
  destruct k as [|[|[|[|[|k]]]]];
    unfold rules, retry_rules, rename_rules; cbn [app take];
    try rewrite take_nil;
    unfold free_of, replace_in_order; cbn [forallb fold_left fst snd];
    repeat (apply andb_true_iff; split); try done;
    apply negb_true_iff; absent.
Qed.


(** A file that decodes and holds no target is rewritten, but with its line
    endings translated: its bytes are not what they were. *)
Example unmatched_file_bytes_change :
  ~ unmatched_file_rewritten_identical
      (world_with Posix (lit "a" ++ [CR; LF] ++ lit "b")).
Proof.
  intros H. destruct (H (lit "a" ++ [CR; LF] ++ lit "b")) as [_ Hfile].
  { vm_compute. reflexivity. }
  { vm_compute. reflexivity. }
  vm_compute in Hfile. discriminate Hfile.
Qed.



End Claims.

(** ** Further behaviour of the script: failures and the order of effects *)

Section Failures.

Implicit Types w : world.

(** A directory at the target path passes the existence test, so the
    script tries to read it: the run ends in the exception of the platform
    for opening a directory, and has changed nothing. *)
Theorem directory_target_raises w :
  files w !! test_path = Some Dir ->
  let o := run finalize_retry_fix w in
  result o = inl (open_directory (os w)) /\
  final o = w /\
  existsb is_write (trace o) = false.
Proof. intros H o. subst o. by rewrite (run_on_dir w H). Qed.

Lemma directory_target_raises_witness :
  result (run finalize_retry_fix
            (World Windows UTF8 {[test_path := Dir]} []))
    = inl PermissionError /\
  final (run finalize_retry_fix
           (World Windows UTF8 {[test_path := Dir]} []))
    = World Windows UTF8 {[test_path := Dir]} [] /\
  existsb is_write
    (trace (run finalize_retry_fix
              (World Windows UTF8 {[test_path := Dir]} []))) = false.
Proof.
  apply (directory_target_raises (World Windows UTF8 {[test_path := Dir]} [])).
  vm_compute. reflexivity.
Defined.

(** A target file that is not valid UTF-8 ends the run in
    [UnicodeDecodeError] before anything is written or printed: the world is
    as it was. *)
Theorem undecodable_target_raises w data :
  files w !! test_path = Some (File data) ->
  utf8_decode data = None ->
  let o := run finalize_retry_fix w in
  result o = inl UnicodeDecodeError /\
  final o = w /\
  existsb is_write (trace o) = false.
Proof.
  intros H Hd o. subst o. by rewrite (run_undecodable w data H Hd).
Qed.

Lemma undecodable_target_raises_witness :
  result (run finalize_retry_fix (world_with Posix [0xFF%N]))
    = inl UnicodeDecodeError /\
  final (run finalize_retry_fix (world_with Posix [0xFF%N]))
    = world_with Posix [0xFF%N] /\
  existsb is_write
    (trace (run finalize_retry_fix (world_with Posix [0xFF%N]))) = false.
Proof.
  apply (undecodable_target_raises (world_with Posix [0xFF%N]) [0xFF%N]).
  - vm_compute. reflexivity.
  - vm_compute. reflexivity.
Defined.

(** On a file that decodes, with a standard output that takes UTF-8, the
    run returns normally and leaves exactly this world: the file rewritten,
    one more line on the standard output, the success message. *)
Theorem decodable_target_succeeds w data s :
  files w !! test_path = Some (File data) ->
  utf8_decode data = Some s ->
  stdout_encoding w = UTF8 ->
  run finalize_retry_fix w =
  Outcome (inr tt)
    (World (os w) UTF8
       (<[test_path := File (on_disk (os w)
                               (new_content_of (universal_newlines s)))]>
          (files w))
       (stdout w ++ [success_message]))
    [EvExists test_path true; EvRead test_path UTF8;
     EvWrite test_path UTF8 (new_content_of (universal_newlines s));
     EvPrint success_message].
Proof.
  intros H Hd Hout. rewrite (run_on_file w data s H Hd).
  unfold printed. cbn [set_files stdout_encoding]. rewrite Hout.
  cbn [result final]. unfold add_stdout, set_files.
  cbn [os stdout_encoding files stdout]. by rewrite Hout.
Qed.

Lemma decodable_target_succeeds_witness :
  run finalize_retry_fix (world_with Posix (lit "opts.retry = 5;")) =
  Outcome (inr tt)
    (World Posix UTF8 {[test_path := File (lit "opts.retry = 10;")]}
       [success_message])
    [EvExists test_path true; EvRead test_path UTF8;
     EvWrite test_path UTF8 (lit "opts.retry = 10;");
     EvPrint success_message].
Proof.
  exact (decodable_target_succeeds
           (world_with Posix (lit "opts.retry = 5;"))
           (lit "opts.retry = 5;") (lit "opts.retry = 5;")
           eq_refl eq_refl eq_refl).
Defined.

(** The message is printed after the file is written: when the standard
    output cannot encode the message, the run ends in [UnicodeEncodeError]
    with nothing printed, and the file has been rewritten all the same. *)
Theorem print_failure_keeps_the_write w data s :
  files w !! test_path = Some (File data) ->
  utf8_decode data = Some s ->
  stdout_encoding w = Latin1 ->
  let o := run finalize_retry_fix w in
  result o = inl UnicodeEncodeError /\
  stdout (final o) = stdout w /\
  files (final o) =
    <[test_path := File (on_disk (os w)
                           (new_content_of (universal_newlines s)))]>
      (files w).
Proof.
  intros H Hd Hout o. subst o. rewrite (run_on_file w data s H Hd).
  unfold printed. cbn [set_files stdout_encoding]. rewrite Hout.
  by cbn [result final os stdout_encoding files stdout].
Qed.

Lemma print_failure_keeps_the_write_witness :
  result (run finalize_retry_fix
            (World Windows Latin1
               {[test_path := File (lit "opts.retry = 5;")]} []))
    = inl UnicodeEncodeError /\
  stdout (final (run finalize_retry_fix
                   (World Windows Latin1
                      {[test_path := File (lit "opts.retry = 5;")]} [])))
    = [] /\
  files (final (run finalize_retry_fix
                  (World Windows Latin1
                     {[test_path := File (lit "opts.retry = 5;")]} [])))
    = <[test_path := File (lit "opts.retry = 10;")]>
        {[test_path := File (lit "opts.retry = 5;")]}.
Proof.
  exact (print_failure_keeps_the_write
           (World Windows Latin1
              {[test_path := File (lit "opts.retry = 5;")]} [])
           (lit "opts.retry = 5;") (lit "opts.retry = 5;")
           eq_refl eq_refl eq_refl).
Defined.

(** One cycle: whatever the world, a run is the existence test alone, or
    the test and a read that fails, or the test, one read, one write of the
    patched text and the print, in this order. *)
Theorem one_read_write_cycle w :
  let o := run finalize_retry_fix w in
  trace o = [EvExists test_path false] \/
  (trace o = [EvExists test_path true; EvRead test_path UTF8] /\
   exists e, result o = inl e) \/
  (exists data s,
     files w !! test_path = Some (File data) /\
     utf8_decode data = Some s /\
     trace o =
       [EvExists test_path true; EvRead test_path UTF8;
        EvWrite test_path UTF8 (new_content_of (universal_newlines s));
        EvPrint success_message]).
Proof.
  intros o. subst o.
  destruct (run_cases w) as [[_ ->]|[[e ->]|(data & s & wr & ? & ? & _ & ->)]].
  - by left.
  - right; left. split; [done|]. by exists e.
  - right; right. by exists data, s.
Qed.

End Failures.

(** ** Further behaviour of the five replacements *)

Section Order.

Implicit Types s x y p : str.
Implicit Types rs : list (str * str).

(** What the replacements cannot touch stays where it is, and the text on
    either side of it is patched as it would be on its own. *)
Theorem untouched_region p :
  forallb (fun r => apart (fst r) p) rules = true ->
  forall x y,
    new_content_of (x ++ p ++ y) = new_content_of x ++ p ++ new_content_of y.
Proof.
  unfold rules. rewrite forallb_app. intros [Hretry Hrename]%andb_true_iff x y.
  unfold new_content_of. rewrite (increase_retry_keeps p Hretry).
  by apply fix_variable_names_keeps.
Qed.

Lemma untouched_region_witness :
  new_content_of (retry_7 ++ lit "opts.retry = 4;" ++ let__max_seen)
  = retry_10 ++ lit "opts.retry = 4;" ++ let_max_seen.
Proof.
  exact (untouched_region (lit "opts.retry = 4;") eq_refl
           retry_7 let__max_seen).
Defined.

(** The patch works line by line: patching lines joined by "\n" is joining
    the patched lines. *)
Theorem patch_is_linewise (lines : list str) :
  new_content_of (join_lines lines) = join_lines (map new_content_of lines).
Proof.
  induction lines as [|l [|l' rest] IH]; [reflexivity|reflexivity|].
  change (join_lines (l :: l' :: rest))
    with (l ++ [LF] ++ join_lines (l' :: rest)).
  unfold new_content_of at 1.
  rewrite (increase_retry_keeps [LF]) by closed_side.
  rewrite (fix_variable_names_keeps [LF]) by closed_side.
  fold (new_content_of l). fold (new_content_of (join_lines (l' :: rest))).
  rewrite IH. reflexivity.
Qed.

Lemma swaps_unique rs (f g : str -> str) :
  (forall s, free_of rs s = true -> f s = s) ->
  (forall s, free_of rs s = true -> g s = s) ->
  (forall old new, In (old, new) rs ->
     old <> [] /\ maps_every_occurrence f old new) ->
  (forall old new, In (old, new) rs -> maps_every_occurrence g old new) ->
  forall s, f s = g s.
Proof.
  intros Hf Hg Hfs Hgs s. induction s as [s IH] using length_ind.
  destruct (free_of rs s) eqn:E.
  - by rewrite Hf, Hg.
  - destruct (not_free_of _ _ E) as (old & new & Hin & Ho).
    destruct (contains_split _ _ Ho) as (x & y & ->).
    destruct (Hfs old new Hin) as [Hne ->]. rewrite (Hgs old new Hin).
    rewrite (IH x), (IH y); [done| |];
      rewrite !length_app; destruct old; try done; simpl; lia.
Qed.

Lemma replace_in_order_cons r rs s :
  replace_in_order (r :: rs) s
  = replace_in_order rs (replace s (fst r) (snd r)).
Proof. reflexivity. Qed.

Lemma replace_in_order_app rs1 rs2 s :
  replace_in_order (rs1 ++ rs2) s
  = replace_in_order rs2 (replace_in_order rs1 s).
Proof. apply fold_left_app. Qed.

Lemma replace_in_order_id rs s :
  Forall (fun r => fst r <> []) rs ->
  free_of rs s = true -> replace_in_order rs s = s.
Proof.
  intros Hne. induction Hne as [|r rs Hr Hrs IH]; [done|].
  unfold free_of. cbn [forallb].
  intros [Hfree Hrest%IH]%andb_true_iff. apply negb_true_iff in Hfree.
  by rewrite replace_in_order_cons, replace_id.
Qed.

Lemma replace_in_order_keeps rs p :
  Forall (fun r => fst r <> [] /\ apart (fst r) p = true) rs ->
  forall x y,
    replace_in_order rs (x ++ p ++ y)
    = replace_in_order rs x ++ p ++ replace_in_order rs y.
Proof.
  intros H. induction H as [|r rs [Hne Hap] Hrs IH]; intros x y; [done|].
  by rewrite !replace_in_order_cons, replace_keeps, IH.
Qed.

Lemma replace_in_order_swaps rs1 old new rs2 :
  old <> [] -> reach_clear old old = true ->
  Forall (fun r => fst r <> [] /\ apart (fst r) old = true) rs1 ->
  Forall (fun r => fst r <> [] /\ apart (fst r) new = true) rs2 ->
  maps_every_occurrence (replace_in_order (rs1 ++ (old, new) :: rs2)) old new.
Proof.
  intros Hne Hself H1 H2 x y.
  rewrite !replace_in_order_app, !replace_in_order_cons. cbn [fst snd].
  rewrite (replace_in_order_keeps rs1 old H1).
  rewrite replace_swaps by done.
  by rewrite (replace_in_order_keeps rs2 new H2).
Qed.

(** The table behind the script: no target can overlap itself, and no
    target can touch the target or the replacement of another rule. *)
Lemma rules_self r :
  In r rules -> fst r <> [] /\ reach_clear (fst r) (fst r) = true.
Proof.
  unfold rules. simpl. intros Hin.
  repeat (destruct Hin as [<-|Hin]; [split; closed_side|]). done.
Qed.

Lemma rules_apart r r' :
  In r rules -> In r' rules -> r <> r' ->
  apart (fst r') (fst r) = true /\ apart (fst r') (snd r) = true.
Proof.
  unfold rules. simpl. intros Hin Hin' Hne.
  repeat (destruct Hin as [<-|Hin];
          [repeat (destruct Hin' as [<-|Hin'];
                   [first [done | split; closed_side]|]); done|]).
  done.
Qed.

Lemma rules_NoDup : NoDup rules.
Proof. apply (bool_decide_unpack _). vm_compute. exact I. Qed.

(** The order of the five replacements is immaterial: applied in any order
    they give the text the script writes. *)
Theorem order_is_immaterial rs s :
  Permutation rs rules -> replace_in_order rs s = new_content_of s.
Proof.
  intros Hperm. revert s.
  assert (forall r, In r rs -> In r rules) as Hsub
    by (intros r; apply Permutation_in, Hperm).
  assert (NoDup rs) as Hnodup by (rewrite Hperm; apply rules_NoDup).
  apply (swaps_unique rules).
  - intros s Hfree. apply replace_in_order_id.
    + apply Forall_forall. intros r Hr%list_elem_of_In%Hsub.
      by apply rules_self.
    + unfold free_of in *. rewrite forallb_forall in *.
      intros r Hr. apply Hfree, Hsub, Hr.
  - apply new_content_of_id.
  - intros old new Hin. split; [by apply rules_nonempty with new|].
    assert (In (old, new) rs) as Hin'
      by (apply Permutation_in with rules; [by apply Permutation_sym|done]).
    destruct (in_split _ _ Hin') as (rs1 & rs2 & ->).
    apply NoDup_app in Hnodup as (_ & Hfresh1 & [Hfresh2 _]%NoDup_cons).
    destruct (rules_self _ Hin) as [Hne Hself]. cbn [fst] in *.
    apply replace_in_order_swaps; [done|done| |].
    + apply Forall_forall. intros r Hr.
      assert (In r rules) as Hrules
        by (apply Hsub, in_or_app; left; by apply list_elem_of_In).
      assert ((old, new) <> r) as Hdiff
        by (intros <-; apply (Hfresh1 _ Hr); by left).
      split; [by apply rules_self|].
      by destruct (rules_apart (old, new) r Hin Hrules Hdiff).
    + apply Forall_forall. intros r Hr.
      assert (In r rules) as Hrules
        by (apply Hsub, in_or_app; right; right; by apply list_elem_of_In).
      assert ((old, new) <> r) as Hdiff by (by intros <-).
      split; [by apply rules_self|].
      by destruct (rules_apart (old, new) r Hin Hrules Hdiff).
  - apply new_content_of_swaps.
Qed.

Lemma order_is_immaterial_witness :
  replace_in_order (reverse rules)
    (lit "let _max_seen = 0; opts.retry = 5; opts.retry = 7;")
  = lit "let max_seen = 0; opts.retry = 10; opts.retry = 10;".
Proof.
  apply (order_is_immaterial (reverse rules)
           (lit "let _max_seen = 0; opts.retry = 5; opts.retry = 7;")).
  apply reverse_Permutation.
Defined.

End Order.

(** ** Replacing before or after a character-wise expansion *)

(** Encoding to UTF-8 and translating newlines both expand a text one
    character at a time, leave the characters of the targets as they are and
    turn every other character into characters that no target holds.  Such
    an expansion commutes with the replacements. *)
Section Expansion.

Variable plain : N -> bool.
Variable g : N -> list N.
Hypothesis g_plain : forall c, plain c = true -> g c = [c].
Hypothesis g_other :
  forall c, plain c = false ->
            g c <> [] /\ forallb (fun b => negb (plain b)) (g c) = true.

Implicit Types s p old new : str.

Lemma plain_differs a b : plain a = true -> plain b = false -> (a =? b)%N = false.
Proof.
  intros Ha Hb. destruct (a =? b)%N eqn:E; [|done].
  apply N.eqb_eq in E. congruence.
Qed.

Lemma flat_map_plain p : forallb plain p = true -> flat_map g p = p.
Proof.
  induction p as [|a p IH]; [done|]. cbn [forallb flat_map].
  intros [Ha Hp]%andb_true_iff. by rewrite g_plain, IH.
Qed.

Lemma startswith_expand s p :
  forallb plain p = true -> startswith (flat_map g s) p = startswith s p.
Proof.
  revert s. induction p as [|a p IH]; intros s Hp.
  - by rewrite !startswith_nil.
  - cbn [forallb] in Hp. apply andb_true_iff in Hp as [Ha Hp].
    destruct s as [|c s]; [done|]. cbn [flat_map].
    destruct (plain c) eqn:Hc.
    + rewrite g_plain by done. simpl. by rewrite IH.
    + destruct (g_other c Hc) as [Hne Hall].
      destruct (g c) as [|b bs]; [done|]. cbn [forallb] in Hall.
      apply andb_true_iff in Hall as [Hb%negb_true_iff _]. simpl.
      by rewrite !plain_differs.
Qed.

Lemma replace_over_others bs s old new :
  old <> [] -> forallb plain old = true ->
  forallb (fun b => negb (plain b)) bs = true ->
  replace (bs ++ s) old new = bs ++ replace s old new.
Proof.
  intros Hne Hold. induction bs as [|b bs IH]; [done|]. cbn [forallb].
  intros [Hb%negb_true_iff Hbs]%andb_true_iff.
  rewrite <- !app_comm_cons, replace_miss, IH; [done|done|].
  destruct old as [|a old]; [done|]. cbn [forallb] in Hold.
  apply andb_true_iff in Hold as [Ha _]. simpl.
  by rewrite plain_differs.
Qed.

Lemma replace_expand s old new :
  old <> [] -> forallb plain old = true -> forallb plain new = true ->
  flat_map g (replace s old new) = replace (flat_map g s) old new.
Proof.
  intros Hne Hold Hnew.
  induction s as [|c s Hmiss IH|y IH] using (scan_ind old Hne).
  - rewrite replace_nil by done. cbn [flat_map]. by rewrite replace_nil.
  - rewrite replace_miss by done. cbn [flat_map]. rewrite IH.
    destruct (plain c) eqn:Hc.
    + rewrite g_plain by done. simpl. rewrite replace_miss; [done|].
      rewrite <- Hmiss, <- (startswith_expand (c :: s)) by done.
      cbn [flat_map]. by rewrite g_plain.
    + destruct (g_other c Hc) as [_ Hall]. by rewrite replace_over_others.
  - rewrite replace_hit by done. rewrite !flat_map_app.
    rewrite (flat_map_plain new), (flat_map_plain old) by done.
    by rewrite replace_hit, IH.
Qed.

End Expansion.

(** ** The bytes of the file after a run *)

Section Bytes.

Implicit Types w : world.
Implicit Types s t : str.
Implicit Types data : bytes.

(** A byte with its top bit set is not an ASCII character. *)
Lemma top_bit_not_ascii a x :
  N.testbit a 7 = true -> is_ascii (N.lor a x) = false.
Proof.
  intros Ha. unfold is_ascii. apply N.ltb_ge.
  destruct (N.le_gt_cases 128 (N.lor a x)) as [|Hlt]; [done|].
  assert (N.testbit (N.lor a x) 7 = true) as Hbit
    by (by rewrite N.lor_spec, Ha).
  rewrite <- (N.mod_small (N.lor a x) (2 ^ 7)) in Hbit by exact Hlt.
  by rewrite N.mod_pow2_bits_high in Hbit.
Qed.

Lemma utf8_encode_char_other c :
  is_ascii c = false ->
  utf8_encode_char c <> [] /\
  forallb (fun b => negb (is_ascii b)) (utf8_encode_char c) = true.
Proof.
  unfold utf8_encode_char. unfold is_ascii at 1. intros ->.
  destruct (c <? 2048)%N; [|destruct (c <? 65536)%N];
    (split; [done|]); cbn [forallb];
    by rewrite !top_bit_not_ascii.
Qed.

Lemma utf8_encode_char_ascii c :
  is_ascii c = true -> utf8_encode_char c = [c].
Proof. unfold utf8_encode_char, is_ascii. by intros ->. Qed.

Lemma translate_char_plain o c :
  negb (is_line_break c) = true ->
  (if (c =? LF)%N then linesep o else [c]) = [c].
Proof.
  unfold is_line_break. intros H%negb_true_iff.
  apply orb_false_iff in H as [_ ->]. done.
Qed.

Lemma translate_char_other o c :
  negb (is_line_break c) = false ->
  (if (c =? LF)%N then linesep o else [c]) <> [] /\
  forallb (fun b => negb (negb (is_line_break b)))
    (if (c =? LF)%N then linesep o else [c]) = true.
Proof.
  unfold is_line_break at 1. intros H%negb_false_iff.
  destruct (c =? LF)%N eqn:E; [by destruct o|].
  rewrite orb_false_r in H. apply N.eqb_eq in H as ->. done.
Qed.

(** Writing the patched text leaves the bytes that writing the text would
    leave, patched. *)
Lemma on_disk_new_content o t :
  on_disk o (new_content_of t) = new_content_of (on_disk o t).
Proof.
  unfold on_disk, translate_newlines.
  unfold new_content_of, fix_variable_names, increase_retry. cbv zeta.
  rewrite !(replace_expand (fun c => negb (is_line_break c)) _
              (translate_char_plain o) (translate_char_other o))
    by closed_side.
  by rewrite !(replace_expand is_ascii utf8_encode_char
                 utf8_encode_char_ascii utf8_encode_char_other)
    by closed_side.
Qed.

(** When the file is as [write_text] would write its own text (valid UTF-8,
    line endings those of the platform), the run leaves the five
    replacements applied to the bytes themselves: every byte outside the
    replaced occurrences is as it was. *)
Theorem stable_file_patched_bytewise w data s :
  files w !! test_path = Some (File data) ->
  utf8_decode data = Some s ->
  on_disk (os w) (universal_newlines s) = data ->
  files (final (run finalize_retry_fix w)) !! test_path
    = Some (File (new_content_of data)) /\
  patched rules data (new_content_of data).
Proof.
  intros Hfile Hdecode Hstable. split; [|apply new_content_of_patched].
  rewrite (run_on_file w data s Hfile Hdecode). cbn [final].
  rewrite printed_files. cbn [set_files files].
  rewrite lookup_insert_eq. by rewrite on_disk_new_content, Hstable.
Qed.

Lemma stable_file_patched_bytewise_witness :
  files (final (run finalize_retry_fix
                  (world_with Windows
                     (retry_7 ++ [CR; LF] ++ let__concurrent ++ [CR; LF]))))
    !! test_path
    = Some (File (retry_10 ++ [CR; LF] ++ let_concurrent ++ [CR; LF])) /\
  patched rules
    (retry_7 ++ [CR; LF] ++ let__concurrent ++ [CR; LF])
    (retry_10 ++ [CR; LF] ++ let_concurrent ++ [CR; LF]).
Proof.
  exact (stable_file_patched_bytewise
           (world_with Windows
              (retry_7 ++ [CR; LF] ++ let__concurrent ++ [CR; LF]))
           (retry_7 ++ [CR; LF] ++ let__concurrent ++ [CR; LF])
           (retry_7 ++ [CR; LF] ++ let__concurrent ++ [CR; LF])
           eq_refl eq_refl eq_refl).
Defined.

End Bytes.

(** ** Decoding and encoding again *)

Ltac div_lia := zify; Z.to_euclidean_division_equations; lia.

Section RoundTrip.

Local Open Scope N_scope.

Implicit Types s t : str.
Implicit Types data : bytes.

Lemma lor_add_small hi k lo :
  lo < 2 ^ k -> N.lor (hi * 2 ^ k) lo = hi * 2 ^ k + lo.
Proof.
  intros H. rewrite <- N.lxor_lor, <- N.add_nocarry_lxor; try reflexivity.
  all: apply N.bits_inj_0; intros n; rewrite N.land_spec;
    destruct (N.lt_ge_cases n k) as [Hn|Hn].
  all: try (rewrite N.mul_pow2_bits_low by assumption; reflexivity).
  all: rewrite <- (N.mod_small lo (2 ^ k)) by assumption;
    rewrite N.mod_pow2_bits_high by assumption; apply andb_false_r.
Qed.

Lemma lor_128 x : x < 64 -> N.lor 128 x = 128 + x.
Proof. apply (lor_add_small 2 6). Qed.

Lemma lor_192 x : x < 64 -> N.lor 192 x = 192 + x.
Proof. apply (lor_add_small 3 6). Qed.

Lemma lor_224 x : x < 16 -> N.lor 224 x = 224 + x.
Proof. apply (lor_add_small 14 4). Qed.

Lemma lor_240 x : x < 8 -> N.lor 240 x = 240 + x.
Proof. apply (lor_add_small 30 3). Qed.

Lemma land_63 x : N.land x 63 = x mod 64.
Proof. apply (N.land_ones x 6). Qed.

Lemma land_31 x : N.land x 31 = x mod 32.
Proof. apply (N.land_ones x 5). Qed.

Lemma land_15 x : N.land x 15 = x mod 16.
Proof. apply (N.land_ones x 4). Qed.

Lemma land_7 x : N.land x 7 = x mod 8.
Proof. apply (N.land_ones x 3). Qed.

Lemma shiftr_6 x : N.shiftr x 6 = x / 64.
Proof. apply (N.shiftr_div_pow2 x 6). Qed.

Lemma shiftr_12 x : N.shiftr x 12 = x / 4096.
Proof. apply (N.shiftr_div_pow2 x 12). Qed.

Lemma shiftr_18 x : N.shiftr x 18 = x / 262144.
Proof. apply (N.shiftr_div_pow2 x 18). Qed.

Lemma pack_6 hi lo : lo < 64 -> N.lor (N.shiftl hi 6) lo = hi * 64 + lo.
Proof. rewrite N.shiftl_mul_pow2. apply (lor_add_small hi 6). Qed.

Lemma pack_12 hi lo : lo < 4096 -> N.lor (N.shiftl hi 12) lo = hi * 4096 + lo.
Proof. rewrite N.shiftl_mul_pow2. apply (lor_add_small hi 12). Qed.

Lemma pack_18 hi lo :
  lo < 262144 -> N.lor (N.shiftl hi 18) lo = hi * 262144 + lo.
Proof. rewrite N.shiftl_mul_pow2. apply (lor_add_small hi 18). Qed.

(** The payload of a continuation byte. *)
Lemma cont_payload b :
  is_cont b = true -> exists x, b = 128 + x /\ x < 64 /\ low6 b = x.
Proof.
  unfold is_cont, low6. intros [Hlo%N.leb_le Hhi%N.ltb_lt]%andb_true_iff.
  exists (b - 128). rewrite land_63. repeat split; div_lia.
Qed.

Lemma is_scalar_bound c : is_scalar c = true -> c < 1114112.
Proof.
  unfold is_scalar. intros [H%N.ltb_lt|[_ H%N.ltb_lt]%andb_true_iff]%orb_true_iff;
    lia.
Qed.

Lemma encode_two b0 b1 :
  (b0 <? 0xC0) = false -> (b0 <? 0xE0) = true -> is_cont b1 = true ->
  let c := N.lor (N.shiftl (N.land b0 0x1F) 6) (low6 b1) in
  (0x80 <=? c) = true -> utf8_encode_char c = [b0; b1].
Proof.
  intros Hlo%N.ltb_ge Hhi%N.ltb_lt (x1 & -> & Hx1 & Hp1)%cont_payload c.
  assert (c = (b0 - 192) * 64 + x1) as ->.
  { subst c. rewrite Hp1, land_31, pack_6 by done. div_lia. }
  intros Hleast%N.leb_le. unfold utf8_encode_char.
  replace (_ <? 128) with false by (symmetry; apply N.ltb_ge; lia).
  replace (_ <? 2048) with true by (symmetry; apply N.ltb_lt; lia).
  rewrite shiftr_6, land_63, lor_192, lor_128 by div_lia.
  f_equal; [|f_equal]; div_lia.
Qed.

Lemma encode_three b0 b1 b2 :
  (b0 <? 0xE0) = false -> (b0 <? 0xF0) = true ->
  is_cont b1 = true -> is_cont b2 = true ->
  let c := N.lor (N.shiftl (N.land b0 0x0F) 12)
             (N.lor (N.shiftl (low6 b1) 6) (low6 b2)) in
  (0x800 <=? c) = true -> utf8_encode_char c = [b0; b1; b2].
Proof.
  intros Hlo%N.ltb_ge Hhi%N.ltb_lt (x1 & -> & Hx1 & Hp1)%cont_payload
    (x2 & -> & Hx2 & Hp2)%cont_payload c.
  assert (c = (b0 - 224) * 4096 + (x1 * 64 + x2)) as ->.
  { subst c. rewrite Hp1, Hp2, land_15, pack_6, pack_12 by lia. div_lia. }
  intros Hleast%N.leb_le. unfold utf8_encode_char.
  replace (_ <? 128) with false by (symmetry; apply N.ltb_ge; lia).
  replace (_ <? 2048) with false by (symmetry; apply N.ltb_ge; lia).
  replace (_ <? 65536) with true by (symmetry; apply N.ltb_lt; lia).
  rewrite shiftr_12, shiftr_6, !land_63, lor_224, !lor_128 by div_lia.
  f_equal; [|f_equal; [|f_equal]]; div_lia.
Qed.

Lemma encode_four b0 b1 b2 b3 :
  (b0 <? 0xF0) = false -> (b0 <? 0xF8) = true ->
  is_cont b1 = true -> is_cont b2 = true -> is_cont b3 = true ->
  let c := N.lor (N.shiftl (N.land b0 0x07) 18)
             (N.lor (N.shiftl (low6 b1) 12)
                (N.lor (N.shiftl (low6 b2) 6) (low6 b3))) in
  (0x10000 <=? c) = true -> is_scalar c = true ->
  utf8_encode_char c = [b0; b1; b2; b3].
Proof.
  intros Hlo%N.ltb_ge Hhi%N.ltb_lt (x1 & -> & Hx1 & Hp1)%cont_payload
    (x2 & -> & Hx2 & Hp2)%cont_payload (x3 & -> & Hx3 & Hp3)%cont_payload c.
  assert (c = (b0 - 240) * 262144 + (x1 * 4096 + (x2 * 64 + x3))) as ->.
  { subst c. rewrite Hp1, Hp2, Hp3, land_7, pack_6, pack_12, pack_18 by lia.
    div_lia. }
  intros Hleast%N.leb_le Hmost%is_scalar_bound.
  unfold utf8_encode_char.
  replace (_ <? 128) with false by (symmetry; apply N.ltb_ge; lia).
  replace (_ <? 2048) with false by (symmetry; apply N.ltb_ge; lia).
  replace (_ <? 65536) with false by (symmetry; apply N.ltb_ge; lia).
  rewrite shiftr_18, shiftr_12, shiftr_6, !land_63, lor_240, !lor_128
    by div_lia.
  f_equal; [|f_equal; [|f_equal; [|f_equal]]]; div_lia.
Qed.

Lemma accept_inv least c rest s :
  accept least c rest = Some s ->
  (least <=? c) = true /\ is_scalar c = true /\
  exists s', rest = Some s' /\ s = c :: s'.
Proof.
  unfold accept. destruct (least <=? c); [|done]. simpl.
  destruct (is_scalar c); [|done]. intros H. split; [done|]. split; [done|].
  by apply fmap_cons_some.
Qed.

(** What decodes encodes back to the same bytes: strict UTF-8 has one
    encoding of each text. *)
Lemma utf8_encode_decode data s :
  utf8_decode data = Some s -> flat_map utf8_encode_char s = data.
Proof.
  revert s. pattern data. apply length_ind. clear data. intros bs IH s.
  destruct bs as [|b0 r]; [by intros [= <-]|]. cbn [utf8_decode].
  destruct (b0 <? 128) eqn:E1.
  { intros (s' & Hr & ->)%fmap_cons_some. cbn [flat_map].
    rewrite (IH r) by (simpl; lia || done).
    unfold utf8_encode_char. by rewrite E1. }
  destruct (b0 <? 192) eqn:E2; [done|].
  destruct (b0 <? 224) eqn:E3.
  { destruct r as [|b1 r1]; [done|]. destruct (is_cont b1) eqn:C1; [|done].
    intros (Hl & Hc & s' & Hr & ->)%accept_inv. cbn [flat_map].
    rewrite (IH r1) by (simpl; lia || done).
    by rewrite (encode_two b0 b1). }
  destruct (b0 <? 240) eqn:E4.
  { destruct r as [|b1 [|b2 r2]]; [done|done|].
    destruct (is_cont b1) eqn:C1; [|done].
    destruct (is_cont b2) eqn:C2; [|done]. cbn [andb].
    intros (Hl & Hc & s' & Hr & ->)%accept_inv. cbn [flat_map].
    rewrite (IH r2) by (simpl; lia || done).
    by rewrite (encode_three b0 b1 b2). }
  destruct (b0 <? 248) eqn:E5; [|done].
  destruct r as [|b1 [|b2 [|b3 r3]]]; [done|done|done|].
  destruct (is_cont b1) eqn:C1; [|done].
  destruct (is_cont b2) eqn:C2; [|done].
  destruct (is_cont b3) eqn:C3; [|done]. cbn [andb].
  intros (Hl & Hc & s' & Hr & ->)%accept_inv. cbn [flat_map].
  rewrite (IH r3) by (simpl; lia || done).
  by rewrite (encode_four b0 b1 b2 b3).
Qed.

End RoundTrip.

(** ** Line endings after a run *)

Section LineEndings.

Implicit Types w : world.
Implicit Types s t : str.
Implicit Types data : bytes.

Lemma translate_posix t : translate_newlines (linesep Posix) t = t.
Proof.
  unfold translate_newlines. induction t as [|c t IH]; [done|].
  cbn [flat_map]. rewrite IH. destruct (c =? LF)%N eqn:E; [|done].
  apply N.eqb_eq in E. by subst c.
Qed.

Lemma universal_newlines_id s : no_cr s = true -> universal_newlines s = s.
Proof.
  unfold no_cr. induction s as [|c s IH]; [done|]. cbn [forallb].
  intros [Hc%negb_true_iff Hs]%andb_true_iff.
  cbn [universal_newlines]. by rewrite Hc, IH.
Qed.

Lemma universal_newlines_no_cr s : no_cr (universal_newlines s) = true.
Proof.
  unfold no_cr. induction s as [s IH] using length_ind.
  destruct s as [|c r]; [done|]. cbn [universal_newlines].
  destruct (c =? CR)%N eqn:E.
  - cbn [forallb]. replace (negb (LF =? CR)%N) with true by reflexivity.
    simpl. destruct r as [|d r']; [done|].
    destruct (d =? LF)%N; apply IH; simpl; lia.
  - cbn [forallb]. rewrite E. simpl. apply IH. simpl. lia.
Qed.

Lemma new_content_of_forallb (P : N -> bool) s :
  forallb (fun r => forallb P (snd r)) rules = true ->
  forallb P s = true -> forallb P (new_content_of s) = true.
Proof.
  unfold rules, retry_rules, rename_rules. cbn [app forallb snd].
  intros H Hs. repeat (apply andb_true_iff in H as [? H]).
  unfold new_content_of, fix_variable_names, increase_retry. cbv zeta.
  by repeat (apply replace_forallb; [closed_side|done|]).
Qed.

Lemma new_content_of_no_cr s : no_cr s = true -> no_cr (new_content_of s) = true.
Proof. apply new_content_of_forallb. closed_side. Qed.

Lemma utf8_encode_char_no_break c :
  is_line_break c = false ->
  forallb (fun b => negb (is_line_break b)) (utf8_encode_char c) = true.
Proof.
  intros Hc. destruct (is_ascii c) eqn:E.
  - rewrite utf8_encode_char_ascii by done. cbn [forallb]. by rewrite Hc.
  - destruct (utf8_encode_char_other c E) as [_ Hall].
    rewrite forallb_forall in *. intros b Hb. specialize (Hall b Hb).
    apply negb_true_iff in Hall. apply negb_true_iff.
    unfold is_line_break, is_ascii in *. apply N.ltb_ge in Hall.
    apply orb_false_iff. split; apply N.eqb_neq; unfold CR, LF; lia.
Qed.

Lemma no_cr_encode t : no_cr t = true -> no_cr (flat_map utf8_encode_char t) = true.
Proof.
  unfold no_cr. induction t as [|c t IH]; [done|]. cbn [forallb flat_map].
  intros [Hc%negb_true_iff Ht]%andb_true_iff.
  rewrite forallb_app, IH, andb_true_r by done.
  destruct (is_ascii c) eqn:E.
  - rewrite utf8_encode_char_ascii by done. cbn [forallb]. by rewrite Hc.
  - destruct (utf8_encode_char_other c E) as [_ Hall].
    rewrite forallb_forall in *. intros b Hb. specialize (Hall b Hb).
    apply negb_true_iff in Hall. apply negb_true_iff.
    unfold is_ascii in *. apply N.ltb_ge in Hall.
    apply N.eqb_neq. unfold CR. lia.
Qed.

Lemma no_cr_decoded data s :
  utf8_decode data = Some s -> no_cr data = true -> no_cr s = true.
Proof.
  intros <-%utf8_encode_decode. unfold no_cr.
  induction s as [|c s IH]; [done|]. cbn [forallb flat_map].
  rewrite forallb_app. intros [Hc Hs]%andb_true_iff. rewrite IH by done.
  rewrite andb_true_r. destruct (c =? CR)%N eqn:E; [|done].
  apply N.eqb_eq in E. subst c. discriminate Hc.
Qed.

(** A POSIX file that is valid UTF-8 and holds no carriage return comes out
    as the five replacements applied to its bytes: outside the replaced
    occurrences it is byte for byte what it was. *)
Theorem posix_file_without_cr w data s :
  os w = Posix ->
  files w !! test_path = Some (File data) ->
  utf8_decode data = Some s ->
  no_cr data = true ->
  files (final (run finalize_retry_fix w)) !! test_path
    = Some (File (new_content_of data)) /\
  patched rules data (new_content_of data).
Proof.
  intros Hos Hfile Hdecode Hcr. split; [|apply new_content_of_patched].
  rewrite (run_on_file w data s Hfile Hdecode). cbn [final].
  rewrite printed_files. cbn [set_files files].
  rewrite lookup_insert_eq, on_disk_new_content, Hos. unfold on_disk.
  rewrite translate_posix, universal_newlines_id
    by (by apply no_cr_decoded with data).
  by rewrite (utf8_encode_decode data s).
Qed.

Lemma posix_file_without_cr_witness :
  files (final (run finalize_retry_fix
                  (world_with Posix
                     ([0xC3; 0xA9; 10]%N ++ retry_6 ++ [0xE2; 0x9C; 0x85]%N))))
    !! test_path
    = Some (File ([0xC3; 0xA9; 10]%N ++ retry_10 ++ [0xE2; 0x9C; 0x85]%N)) /\
  patched rules
    ([0xC3; 0xA9; 10]%N ++ retry_6 ++ [0xE2; 0x9C; 0x85]%N)
    ([0xC3; 0xA9; 10]%N ++ retry_10 ++ [0xE2; 0x9C; 0x85]%N).
Proof.
  exact (posix_file_without_cr
           (world_with Posix
              ([0xC3; 0xA9; 10]%N ++ retry_6 ++ [0xE2; 0x9C; 0x85]%N))
           ([0xC3; 0xA9; 10]%N ++ retry_6 ++ [0xE2; 0x9C; 0x85]%N)
           ([0xE9; 10]%N ++ retry_6 ++ [0x2705]%N)
           eq_refl eq_refl eq_refl eq_refl).
Defined.

Lemma crlf_lines_skip bs rest :
  forallb (fun b => negb (is_line_break b)) bs = true ->
  crlf_lines (bs ++ rest) = crlf_lines rest.
Proof.
  induction bs as [|b bs IH]; [done|]. cbn [forallb].
  intros [Hb%negb_true_iff Hbs]%andb_true_iff.
  unfold is_line_break in Hb. apply orb_false_iff in Hb as [Hcr Hlf].
  rewrite <- app_comm_cons. cbn [crlf_lines]. rewrite Hcr, Hlf. simpl.
  by apply IH.
Qed.

Lemma on_disk_windows_crlf t :
  no_cr t = true -> crlf_lines (on_disk Windows t) = true.
Proof.
  unfold no_cr, on_disk, translate_newlines.
  induction t as [|c t IH]; [done|]. cbn [forallb flat_map].
  intros [Hc%negb_true_iff Ht]%andb_true_iff.
  destruct (c =? LF)%N eqn:E.
  - cbn [linesep flat_map app].
    change (utf8_encode_char CR) with [CR].
    change (utf8_encode_char LF) with [LF].
    cbn [app crlf_lines]. rewrite !N.eqb_refl. simpl. by apply IH.
  - cbn [flat_map app]. rewrite crlf_lines_skip; [by apply IH|].
    apply utf8_encode_char_no_break. unfold is_line_break. by rewrite Hc, E.
Qed.

(** The file a run writes has the line endings of the platform, whatever
    the ones it had: on POSIX no carriage return is left in it, on Windows
    every line ending is "\r\n". *)
Theorem written_line_endings w data s :
  files w !! test_path = Some (File data) ->
  utf8_decode data = Some s ->
  exists data',
    files (final (run finalize_retry_fix w)) !! test_path = Some (File data') /\
    match os w with
    | Posix => no_cr data' = true
    | Windows => crlf_lines data' = true
    end.
Proof.
  intros Hfile Hdecode. eexists. split.
  - rewrite (run_on_file w data s Hfile Hdecode). cbn [final].
    rewrite printed_files. cbn [set_files files]. apply lookup_insert_eq.
  - assert (no_cr (new_content_of (universal_newlines s)) = true) as Hcr
      by apply new_content_of_no_cr, universal_newlines_no_cr.
    destruct (os w).
    + unfold on_disk. rewrite translate_posix. by apply no_cr_encode.
    + by apply on_disk_windows_crlf.
Qed.

Lemma written_line_endings_witness :
  exists data',
    files (final (run finalize_retry_fix
                    (world_with Windows
                       (lit "a" ++ [LF] ++ lit "b" ++ [CR] ++ retry_5))))
      !! test_path = Some (File data') /\
    crlf_lines data' = true.
Proof.
  exact (written_line_endings
           (world_with Windows
              (lit "a" ++ [LF] ++ lit "b" ++ [CR] ++ retry_5))
           (lit "a" ++ [LF] ++ lit "b" ++ [CR] ++ retry_5)
           (lit "a" ++ [LF] ++ lit "b" ++ [CR] ++ retry_5)
           eq_refl eq_refl).
Defined.

End LineEndings.

(** ** Running the script again *)

(** Settles the comparisons of a goal by the bounds at hand. *)
Ltac bounds :=
  repeat match goal with
         | |- context [(?a <? ?b)%N] =>
             destruct (N.ltb_spec a b); [try (exfalso; lia)|try (exfalso; lia)]
         | |- context [(?a <=? ?b)%N] =>
             destruct (N.leb_spec a b); [try (exfalso; lia)|try (exfalso; lia)]
         end.

Section Rerun.

Local Open Scope N_scope.

Implicit Types w : world.
Implicit Types s t : str.
Implicit Types rest : bytes.

Lemma is_cont_payload x : x < 64 -> is_cont (128 + x) = true.
Proof. intros H. unfold is_cont. bounds. done. Qed.

Lemma low6_payload x : x < 64 -> low6 (128 + x) = x.
Proof. intros H. unfold low6. rewrite land_63. div_lia. Qed.

(** One step of the decoder. *)
Lemma utf8_decode_cons b0 r :
  utf8_decode (b0 :: r) =
  if b0 <? 0x80 then cons b0 <$> utf8_decode r
  else if b0 <? 0xC0 then None
  else if b0 <? 0xE0 then
    match r with
    | b1 :: r1 =>
        if is_cont b1
        then accept 0x80
               (N.lor (N.shiftl (N.land b0 0x1F) 6) (low6 b1))
               (utf8_decode r1)
        else None
    | _ => None
    end
  else if b0 <? 0xF0 then
    match r with
    | b1 :: b2 :: r2 =>
        if is_cont b1 && is_cont b2
        then accept 0x800
               (N.lor (N.shiftl (N.land b0 0x0F) 12)
                  (N.lor (N.shiftl (low6 b1) 6) (low6 b2)))
               (utf8_decode r2)
        else None
    | _ => None
    end
  else if b0 <? 0xF8 then
    match r with
    | b1 :: b2 :: b3 :: r3 =>
        if is_cont b1 && is_cont b2 && is_cont b3
        then accept 0x10000
               (N.lor (N.shiftl (N.land b0 0x07) 18)
                  (N.lor (N.shiftl (low6 b1) 12)
                     (N.lor (N.shiftl (low6 b2) 6) (low6 b3))))
               (utf8_decode r3)
        else None
    | _ => None
    end
  else None.
Proof. reflexivity. Qed.

Lemma decode_one c rest :
  c < 128 -> utf8_decode (c :: rest) = cons c <$> utf8_decode rest.
Proof.
  intros H. rewrite utf8_decode_cons.
  by rewrite (proj2 (N.ltb_lt c 128)) by lia.
Qed.

Lemma decode_two x0 x1 rest :
  2 <= x0 < 32 -> x1 < 64 ->
  utf8_decode ((192 + x0) :: (128 + x1) :: rest)
  = cons (x0 * 64 + x1) <$> utf8_decode rest.
Proof.
  intros H0 H1. rewrite utf8_decode_cons.
  rewrite (proj2 (N.ltb_ge (192 + x0) 128)),
    (proj2 (N.ltb_ge (192 + x0) 192)),
    (proj2 (N.ltb_lt (192 + x0) 224)) by lia.
  cbv iota.
  rewrite is_cont_payload, low6_payload, land_31, pack_6 by done.
  replace ((192 + x0) mod 32) with x0 by div_lia.
  unfold accept, is_scalar. bounds. done.
Qed.

Lemma decode_three x0 x1 x2 rest :
  x0 < 16 -> x1 < 64 -> x2 < 64 ->
  2048 <= x0 * 4096 + (x1 * 64 + x2) ->
  is_scalar (x0 * 4096 + (x1 * 64 + x2)) = true ->
  utf8_decode ((224 + x0) :: (128 + x1) :: (128 + x2) :: rest)
  = cons (x0 * 4096 + (x1 * 64 + x2)) <$> utf8_decode rest.
Proof.
  intros H0 H1 H2 Hleast Hscalar. rewrite utf8_decode_cons.
  rewrite (proj2 (N.ltb_ge (224 + x0) 128)),
    (proj2 (N.ltb_ge (224 + x0) 192)),
    (proj2 (N.ltb_ge (224 + x0) 224)),
    (proj2 (N.ltb_lt (224 + x0) 240)) by lia.
  cbv iota.
  rewrite !is_cont_payload, !low6_payload, land_15, pack_6, pack_12 by lia.
  replace ((224 + x0) mod 16) with x0 by div_lia.
  unfold accept. rewrite Hscalar. bounds. done.
Qed.

Lemma decode_four x0 x1 x2 x3 rest :
  x0 < 8 -> x1 < 64 -> x2 < 64 -> x3 < 64 ->
  65536 <= x0 * 262144 + (x1 * 4096 + (x2 * 64 + x3)) ->
  is_scalar (x0 * 262144 + (x1 * 4096 + (x2 * 64 + x3))) = true ->
  utf8_decode ((240 + x0) :: (128 + x1) :: (128 + x2) :: (128 + x3) :: rest)
  = cons (x0 * 262144 + (x1 * 4096 + (x2 * 64 + x3))) <$> utf8_decode rest.
Proof.
  intros H0 H1 H2 H3 Hleast Hscalar. rewrite utf8_decode_cons.
  rewrite (proj2 (N.ltb_ge (240 + x0) 128)),
    (proj2 (N.ltb_ge (240 + x0) 192)),
    (proj2 (N.ltb_ge (240 + x0) 224)),
    (proj2 (N.ltb_ge (240 + x0) 240)),
    (proj2 (N.ltb_lt (240 + x0) 248)) by lia.
  cbv iota.
  rewrite !is_cont_payload, !low6_payload, land_7, pack_6, pack_12, pack_18
    by lia.
  replace ((240 + x0) mod 8) with x0 by div_lia.
  unfold accept. rewrite Hscalar. bounds. done.
Qed.

(** The encoding of a scalar value decodes to it. *)
Lemma decode_char c rest :
  is_scalar c = true ->
  utf8_decode (utf8_encode_char c ++ rest) = cons c <$> utf8_decode rest.
Proof.
  intros Hc. pose proof (is_scalar_bound c Hc) as Hmost.
  unfold utf8_encode_char.
  destruct (N.ltb_spec c 128); [by apply decode_one|].
  destruct (N.ltb_spec c 2048).
  { rewrite shiftr_6, land_63, lor_192, lor_128 by div_lia. cbn [app].
    rewrite decode_two by div_lia. f_equal. f_equal. div_lia. }
  destruct (N.ltb_spec c 65536).
  { rewrite shiftr_12, shiftr_6, !land_63, lor_224, !lor_128 by div_lia.
    cbn [app].
    assert (c = c / 4096 * 4096 + ((c / 64) mod 64 * 64 + c mod 64)) as Hsplit
      by div_lia.
    rewrite decode_three; try div_lia; by rewrite <- Hsplit. }
  rewrite shiftr_18, shiftr_12, shiftr_6, !land_63, lor_240, !lor_128
    by div_lia.
  cbn [app].
  assert (c = c / 262144 * 262144
              + ((c / 4096) mod 64 * 4096 + ((c / 64) mod 64 * 64 + c mod 64)))
    as Hsplit by div_lia.
  rewrite decode_four; try div_lia; by rewrite <- Hsplit.
Qed.

(** What is encoded decodes to the text it was. *)
Lemma utf8_decode_encode t :
  forallb is_scalar t = true ->
  utf8_decode (flat_map utf8_encode_char t) = Some t.
Proof.
  induction t as [|c t IH]; [done|]. cbn [forallb flat_map].
  intros [Hc Ht]%andb_true_iff. by rewrite decode_char, IH.
Qed.

(** Reading back what was written gives the text that was written, when it
    held no carriage return. *)
Lemma universal_translate o t :
  no_cr t = true ->
  universal_newlines (translate_newlines (linesep o) t) = t.
Proof.
  destruct o; [intros H; by rewrite translate_posix, universal_newlines_id|].
  unfold no_cr, translate_newlines. cbn [linesep].
  induction t as [|c t IH]; [done|].
  cbn [forallb flat_map]. intros [Hc%negb_true_iff Ht]%andb_true_iff.
  destruct (c =? LF) eqn:E.
  - apply N.eqb_eq in E. subst c. cbn [app universal_newlines].
    rewrite !N.eqb_refl. by rewrite IH.
  - cbn [app universal_newlines]. by rewrite Hc, IH.
Qed.

(** What [write_text] leaves in the file, [read_text] gives back: a text of
    scalar values without carriage returns comes back as it was written, on
    either platform. *)
Theorem read_back_written_text o t :
  forallb is_scalar t = true -> no_cr t = true ->
  universal_newlines <$> decode UTF8 (on_disk o t) = Some t.
Proof.
  intros Hscalar Hcr. unfold on_disk. cbn [decode].
  rewrite utf8_decode_encode by (by apply translate_newlines_scalar).
  cbn [fmap option_fmap option_map]. by rewrite universal_translate.
Qed.

Lemma read_back_written_text_witness :
  universal_newlines <$>
    decode UTF8 (on_disk Windows (lit "a" ++ [LF; 0xE9; 0x2705; 0x1F600]))
  = Some (lit "a" ++ [LF; 0xE9; 0x2705; 0x1F600]).
Proof.
  exact (read_back_written_text Windows
           (lit "a" ++ [LF; 0xE9; 0x2705; 0x1F600]) eq_refl eq_refl).
Defined.

(** Running the script a second time leaves every file as the first run
    left it. *)
Theorem rerun_changes_no_file w :
  files (final (run finalize_retry_fix (final (run finalize_retry_fix w))))
  = files (final (run finalize_retry_fix w)).
Proof.
  destruct (run_cases w)
    as [[_ Hrun]|[[e Hrun]|(data & s & wr & Hfile & Hdecode & Hwr & Hrun)]].
  - rewrite Hrun. cbn [final]. by rewrite Hrun.
  - rewrite Hrun. cbn [final]. by rewrite Hrun.
  - rewrite Hrun. cbn [final].
    set (t := new_content_of (universal_newlines s)) in *.
    set (w1 := final (printed wr)).
    assert (files w1 = <[test_path := File (on_disk (os w) t)]> (files w))
      as Hfiles by (unfold w1; rewrite printed_files; by subst wr).
    assert (os w1 = os w) as Hos
      by (unfold w1; rewrite printed_os; by subst wr).
    assert (forallb is_scalar t = true) as Hscalar
      by (apply new_content_of_scalar, universal_newlines_scalar;
          by apply utf8_decode_scalar with data).
    assert (no_cr t = true) as Hcr
      by apply new_content_of_no_cr, universal_newlines_no_cr.
    rewrite (run_on_file w1 (on_disk (os w) t)
               (translate_newlines (linesep (os w)) t)).
    + cbn [final]. rewrite printed_files. cbn [set_files files].
      rewrite Hfiles, Hos, universal_translate by done. fold t.
      unfold t at 1. rewrite new_content_of_id by apply new_content_of_free.
      fold t. apply insert_insert_eq.
    + rewrite Hfiles. apply lookup_insert_eq.
    + apply utf8_decode_encode. by apply translate_newlines_scalar.
Qed.

End Rerun.
